(** * MCcubed/plots/mcplots.py: the five MCMC plotting routines

    A shallow embedding of [trace], [pairwise], [histogram], [RMS] and
    [modelfit].  The routines are glue over numpy and matplotlib, so the
    embedding has three layers:

    - Python values: integers are [Z], floats are exact rationals [Q],
      arrays are [seq]; slicing, boolean masks, index arrays, [np.where],
      [np.lexsort], [np.linspace] and the histogram routines are written
      out with the behaviour numpy documents, including the exceptions
      they raise on degenerate input;
    - a store of array objects addressed by location: every array the
      caller passes in, and every array the source assigns into through a
      subscript ([good] in [trace], [yran] in [RMS]), lives there, so that
      aliasing and in-place writes are visible;
    - the figure as the list of drawing calls issued so far.

    Tick and label styling ([xticks], [yticks], [xlabel], [ylabel],
    [legend], [subplots_adjust], [set_edgecolor], [draw]) and the default
    parameter names they print are not recorded: no property below reads
    them. *)

From HB Require Import structures.
From Stdlib Require Import ZArith QArith Qminmax Qround Lia String.
From mathcomp Require Import ssreflect ssrfun ssrbool eqtype ssrnat seq path.

Set Implicit Arguments.
Unset Strict Implicit.
Unset Printing Implicit Defensive.

Close Scope Q_scope.
Close Scope Z_scope.

(** Chain indices are compared and looked up: [Z] with its decidable
    equality. *)
HB.instance Definition _ := hasDecEq.Build Z Z.eqb_spec.

(** ** Python exceptions and results *)

Inductive exn := ValueError | IndexError | TypeError | ZeroDivisionError.

Inductive res (A : Type) :=
| Ok (a : A)
| Raise (e : exn).

Arguments Raise {A} e.

(** ** Array objects, the store and the figure *)

Inductive obj :=
| Floats (a : seq Q)                       (* 1-D float ndarray, list or tuple *)
| Ints (a : seq Z)                         (* 1-D integer ndarray *)
| Bools (a : seq bool)                     (* 1-D boolean ndarray *)
| Matrix (npars : nat) (rows : seq (seq Q)) (* 2-D ndarray, shape (size rows, npars) *)
| Arrays (a : seq (option (seq Q))).       (* Python list of 1-D arrays or None *)

Definition loc := nat.

(** The calls into matplotlib, and into the two collaborators of the
    repository ([utils.credregion], [binarray]), in the order issued. *)
Inductive call :=
| figure (fignum : Z) (width height : Z)
| clf
| subplot (nrows ncols index : Z)
| axes (left bottom width height : Q)
| plot (y : seq Q)
| plot_xy (x y : seq Q)
| vlines (x : seq Q) (ymin ymax : Q)
| xlim (lo hi : Q)
| ylim (lo hi : Q)
| hist (x : seq Q) (bins : Z) (step : bool)
| fill_between (x : seq Q) (y1 : Q) (y2 : seq Q) (where_ : seq bool)
| contourf (h : seq (seq Q)) (vmin : Q) (levels : seq Q) (extent : Q * Q * Q * Q)
| colorbar (bounds ticks : seq Q)
| errorbar (x y yerr_lo yerr_hi : seq Q)
| semilogx (x y : seq Q)
| loglog (x y : seq Q)
| savefig (file : string)
| credregion_call (posterior : seq Q) (percentile : Q) (pdf xpdf : option (seq Q))
| binarray_call (data uncert indparams : seq Q) (binsize : Z)
| weightedbin_call (model : seq Q) (binsize : Z).

Record mem := Mem { heap : seq obj; fig : seq call }.

(** ** The monad: store and figure are threaded, an exception stops the
    routine and leaves the store as it was when it was raised. *)

Definition M (A : Type) := mem -> mem * res A.

Definition ret A (a : A) : M A := fun s => (s, Ok a).

Definition bind A B (m : M A) (f : A -> M B) : M B :=
  fun s => match m s with
           | (s', Ok a) => f a s'
           | (s', Raise e) => (s', Raise e)
           end.

Definition raise A (e : exn) : M A := fun s => (s, Raise e).

Arguments raise {A} e.

Definition lift A (r : res A) : M A := fun s => (s, r).

Notation "x <~ m ;; k" := (bind m (fun x => k))
  (at level 61, m at next level, right associativity).
Notation "m ;; k" := (bind m (fun _ => k))
  (at level 61, right associativity).
Notation "' p <~ m ;; k" := (bind m (fun x => let 'p := x in k))
  (at level 61, p pattern, m at next level, right associativity).

(** [for x in xs: body x] *)
Fixpoint for_ A (xs : seq A) (body : A -> M unit) : M unit :=
  if xs is x :: xs' then body x ;; for_ xs' body else ret tt.

(** A loop that carries local variables [acc] from one turn to the next. *)
Fixpoint for_acc A B (xs : seq A) (acc : B) (body : B -> A -> M B) : M B :=
  if xs is x :: xs' then acc' <~ body acc x ;; for_acc xs' acc' body
  else ret acc.

(** Store primitives.  [alloc] is what every numpy expression that builds
    a new array does; [load] dereferences; [store] overwrites the object
    at a location in place. *)
Definition alloc (o : obj) : M loc :=
  fun s => (Mem (rcons (heap s) o) (fig s), Ok (size (heap s))).

Definition load (l : loc) : M obj :=
  fun s => if l < size (heap s) then (s, Ok (nth (Bools [::]) (heap s) l))
           else (s, Raise ValueError).

Definition store (l : loc) (o : obj) : M unit :=
  fun s => if l < size (heap s)
           then (Mem (set_nth (Bools [::]) (heap s) l o) (fig s), Ok tt)
           else (s, Raise ValueError).

Definition emit (c : call) : M unit :=
  fun s => (Mem (heap s) (rcons (fig s) c), Ok tt).

Definition drawn : M (seq call) := fun s => (s, Ok (fig s)).

Definition load_floats (l : loc) : M (seq Q) :=
  o <~ load l ;; if o is Floats a then ret a else raise TypeError.

Definition load_ints (l : loc) : M (seq Z) :=
  o <~ load l ;; if o is Ints a then ret a else raise TypeError.

Definition load_bools (l : loc) : M (seq bool) :=
  o <~ load l ;; if o is Bools a then ret a else raise TypeError.

(** ** Python and numpy on values *)

(** [np.arange(n)] *)
Definition arange (n : Z) : seq Z := [seq Z.of_nat k | k <- iota 0 (Z.to_nat n)].

(** [s[b:]]: a negative [b] counts from the end. *)
Definition slice_from A (b : Z) (s : seq A) : seq A :=
  if (0 <=? b)%Z then drop (Z.to_nat b) s
  else drop (size s - Z.to_nat (- b)) s.

(** Keep one element, pass over [gap] elements, keep one, ...; [skip] is
    the number of elements still to pass over before the next one kept. *)
Fixpoint every A (skip gap : nat) (s : seq A) : seq A :=
  if s is x :: s' then
    if skip is k.+1 then every k gap s' else x :: every gap gap s'
  else [::].

(** [s[0::step]]: a zero step raises, a negative step walks down from
    index 0 and so yields the first element only. *)
Definition slice_step A (step : Z) (s : seq A) : res (seq A) :=
  if (step =? 0)%Z then Raise ValueError
  else if (0 <? step)%Z then Ok (every 0 (Z.to_nat step).-1 s)
  else Ok (take 1 s).

(** [s[::step]]: as [s[0::step]] for a positive step; a negative step
    walks down from the last element. *)
Definition slice_stride A (step : Z) (s : seq A) : res (seq A) :=
  if (step =? 0)%Z then Raise ValueError
  else if (0 <? step)%Z then Ok (every 0 (Z.to_nat step).-1 s)
  else Ok (every 0 (Z.to_nat (- step)).-1 (rev s)).

(** [s[-1]] and [s[0]] *)
Definition last_item A (s : seq A) : res A :=
  if s is x :: s' then Ok (last x s') else Raise IndexError.

Definition first_item A (s : seq A) : res A :=
  if s is x :: _ then Ok x else Raise IndexError.

Definition item A (s : seq A) (i : nat) : res A :=
  if s is x :: _ then if i < size s then Ok (nth x s i) else Raise IndexError
  else Raise IndexError.

(** [np.amax], [np.amin]: raise on an empty array. *)
Definition amax (a : seq Q) : res Q :=
  if a is x :: a' then Ok (foldl Qmax x a') else Raise ValueError.

Definition amin (a : seq Q) : res Q :=
  if a is x :: a' then Ok (foldl Qmin x a') else Raise ValueError.

Definition amaxZ (a : seq Z) : res Z :=
  if a is x :: a' then Ok (foldl Z.max x a') else Raise ValueError.

(** Element-wise arithmetic with numpy's broadcasting of a length-1
    operand; other length mismatches raise. *)
Definition broadcast (op : Q -> Q -> Q) (a b : seq Q) : res (seq Q) :=
  if size a == size b then Ok [seq op x.1 x.2 | x <- zip a b]
  else if a is [:: x] then Ok [seq op x y | y <- b]
  else if b is [:: y] then Ok [seq op x y | x <- a]
  else Raise ValueError.

(** [np.where(a == c)[0]] *)
Definition where_eq (a : seq Z) (c : Z) : seq nat :=
  [seq k <- iota 0 (size a) | (nth 0%Z a k =? c)%Z].

(** [np.where(a)[0]]: the indices of the nonzero entries. *)
Definition where_nz (a : seq Z) : seq nat :=
  [seq k <- iota 0 (size a) | ~~ (nth 0%Z a k =? 0)%Z].

(** [np.ediff1d(a)]: the differences of consecutive entries. *)
Definition ediff1d (a : seq Z) : seq Z :=
  if a is x :: a' then pairmap (fun u v => (v - u)%Z) x a' else [::].

(** [a[idx] = True] for an index array [idx]: IndexError when out of bounds. *)
Definition set_true (a : seq bool) (idx : seq nat) : res (seq bool) :=
  if all (fun k => k < size a) idx
  then Ok (foldl (fun g k => set_nth false g k true) a idx)
  else Raise IndexError.

(** [a[m]] for a boolean array [m]: the lengths must agree. *)
Definition getitem_mask A (a : seq A) (m : seq bool) : res (seq A) :=
  if size m == size a then Ok (mask m a) else Raise IndexError.

(** [a[idx]] for an index array [idx]. *)
Definition getitem_idx A (d : A) (a : seq A) (idx : seq nat) : res (seq A) :=
  if all (fun k => k < size a) idx then Ok [seq nth d a k | k <- idx]
  else Raise IndexError.

(** [np.lexsort([keys])]: the indices that sort [keys], ties in their
    original order (numpy sorts indirectly with a stable merge sort). *)
Definition lexsort (keys : seq Z) : seq nat :=
  sort (fun i j => (nth 0%Z keys i <=? nth 0%Z keys j)%Z) (iota 0 (size keys)).

(** [np.linspace(start, stop, num)]: [num] evenly spaced samples, the last
    one set to [stop]. *)
Definition linspace (start stop : Q) (num : Z) : res (seq Q) :=
  if (num <? 0)%Z then Raise ValueError
  else match Z.to_nat num with
       | 0 => Ok [::]
       | 1 => Ok [:: start]
       | n.+2 =>
           let step := ((stop - start) / inject_Z (Z.of_nat n.+1))%Q in
           Ok (rcons [seq (start + inject_Z (Z.of_nat i) * step)%Q | i <- iota 0 n.+1] stop)
       end.

(** Column [i] of a list of rows: [rows[:, i]]. *)
Definition column (i : nat) (rows : seq (seq Q)) : seq Q :=
  [seq nth 0%Q r i | r <- rows].

Definition rbind A B (r : res A) (f : A -> res B) : res B :=
  match r with Ok a => f a | Raise e => Raise e end.

Definition rmap A B (f : A -> B) (r : res A) : res B :=
  match r with Ok a => Ok (f a) | Raise e => Raise e end.

(** [o[m]] for a boolean array [m], whatever array [o] is. *)
Definition obj_getitem_mask (o : obj) (m : seq bool) : res obj :=
  match o with
  | Floats a => rmap Floats (getitem_mask a m)
  | Ints a => rmap Ints (getitem_mask a m)
  | Bools a => rmap Bools (getitem_mask a m)
  | Matrix n rows => rmap (Matrix n) (getitem_mask rows m)
  | Arrays _ => Raise TypeError
  end.

(** [o[idx]] for an index array [idx]. *)
Definition obj_getitem_idx (o : obj) (idx : seq nat) : res obj :=
  match o with
  | Floats a => rmap Floats (getitem_idx 0%Q a idx)
  | Ints a => rmap Ints (getitem_idx 0%Z a idx)
  | Bools a => rmap Bools (getitem_idx false a idx)
  | Matrix n rows => rmap (Matrix n) (getitem_idx [::] rows idx)
  | Arrays _ => Raise TypeError
  end.

(** [nsamples, npars = np.shape(posterior)]: anything but a 2-D array
    fails to unpack. *)
Definition shape2 (o : obj) : res (nat * seq (seq Q)) :=
  if o is Matrix n rows then Ok (n, rows) else Raise ValueError.

(** *** numpy's histograms with an integer bin count, in exact arithmetic *)

(** The range the bins span: the extremes of the data, widened by a half
    on each side when they coincide, and [0, 1] for no data. *)
Definition data_range (a : seq Q) : Q * Q :=
  if a is x :: a' then
    let lo := foldl Qmin x a' in
    let hi := foldl Qmax x a' in
    if Qeq_bool lo hi then ((lo - (1 # 2))%Q, (hi + (1 # 2))%Q) else (lo, hi)
  else (0%Q, 1%Q).

(** The bin a value falls in; the last bin includes its right edge. *)
Definition bin_of (lo hi : Q) (nbins : nat) (v : Q) : nat :=
  if Qle_bool hi v then nbins.-1
  else Z.to_nat (Qfloor ((v - lo) * inject_Z (Z.of_nat nbins) / (hi - lo))%Q).

Definition linspace_nat (start stop : Q) (num : nat) : seq Q :=
  if linspace start stop (Z.of_nat num) is Ok a then a else [::].

Definition counts (n : nat) (bins : seq nat) : seq Q :=
  [seq inject_Z (Z.of_nat (count (pred1 k) bins)) | k <- iota 0 n].

(** The counts and the [n + 1] edges of a histogram with [n] bins. *)
Definition histogram_n (a : seq Q) (n : nat) : seq Q * seq Q :=
  let: (lo, hi) := data_range a in
  (counts n [seq bin_of lo hi n v | v <- a], linspace_nat lo hi n.+1).

(** [np.histogram(a, bins)], which is what [plt.hist(a, bins)] returns. *)
Definition np_histogram (a : seq Q) (bins : Z) : res (seq Q * seq Q) :=
  if (bins <=? 0)%Z then Raise ValueError
  else Ok (histogram_n a (Z.to_nat bins)).

(** The counts and edges of a 2-D histogram with [n] bins a side:
    [H[i][j]] counts the samples in bin [i] of [x] and bin [j] of [y]. *)
Definition histogram2d_n (x y : seq Q) (n : nat)
  : seq (seq Q) * seq Q * seq Q :=
  let: (xlo, xhi) := data_range x in
  let: (ylo, yhi) := data_range y in
  let bx := [seq bin_of xlo xhi n v | v <- x] in
  let by_ := [seq bin_of ylo yhi n v | v <- y] in
  ([seq counts n (mask [seq b == i | b <- bx] by_) | i <- iota 0 n],
   linspace_nat xlo xhi n.+1, linspace_nat ylo yhi n.+1).

(** [np.histogram2d(x, y, bins)] *)
Definition np_histogram2d (x y : seq Q) (bins : Z)
  : res (seq (seq Q) * seq Q * seq Q) :=
  if (bins <=? 0)%Z then Raise ValueError
  else if size x != size y then Raise ValueError
  else Ok (histogram2d_n x y (Z.to_nat bins)).

(** [h.T] *)
Definition transpose (h : seq (seq Q)) : seq (seq Q) :=
  [seq column j h | j <- iota 0 (size (head [::] h))].

(** ** The collaborators outside this file

    [utils.credregion], [binarray.binarray], [binarray.weightedbin],
    scipy's nearest-neighbour [interp1d] and the y-limits matplotlib gives
    the current axes are not defined in [mcplots.py]; the routines are
    verified for whatever these compute. *)
Record externals := Externals {
  credregion : seq Q -> Q -> option (seq Q) -> option (seq Q) -> seq Q * seq Q * Q;
  interp1d_nearest : seq Q -> seq Q -> seq Q -> seq Q;
  binarray : seq Q -> seq Q -> seq Q -> Z -> seq Q * seq Q * seq Q;
  weightedbin : seq Q -> Z -> seq Q;
  get_ylim : seq call -> Q * Q
}.

Definition of_nat (n : nat) : Q := inject_Z (Z.of_nat n).

Section Renderers.

Variable ext : externals.

Definition save (savefile : option string) : M unit :=
  if savefile is Some f then emit (savefig f) else ret tt.

(** *** trace (lines 18-100) *)

(** [good[np.where(Zchain == c)[0][burnin:]] = True] *)
Definition mark_good (Zchain good : loc) (burnin c : Z) : M unit :=
  z <~ load_ints Zchain ;;
  g <~ load_bools good ;;
  g' <~ lift (set_true g (slice_from burnin (where_eq z c))) ;;
  store good (Bools g').

(** Lines 47-61: the samples kept, sorted by chain, and the separators. *)
Definition trace_chains (posterior Zchain : loc) (thinning burnin : Z)
  : M (loc * seq nat) :=
  z <~ load_ints Zchain ;;
  top <~ lift (amaxZ z) ;;
  let nchains := (top + 1)%Z in
  good <~ alloc (Bools (nseq (size z) false)) ;;
  for_ (arange nchains) (mark_good Zchain good burnin) ;;
  g <~ load_bools good ;;
  p <~ load posterior ;;
  p' <~ lift (obj_getitem_mask p g) ;;
  posterior <~ alloc p' ;;
  z <~ load Zchain ;;
  z' <~ lift (obj_getitem_mask z g) ;;
  Zchain <~ alloc z' ;;
  keys <~ load_ints Zchain ;;
  let zsort := lexsort keys in
  p <~ load posterior ;;
  p' <~ lift (obj_getitem_idx p zsort) ;;
  posterior <~ alloc p' ;;
  z <~ load Zchain ;;
  z' <~ lift (obj_getitem_idx z zsort) ;;
  Zchain <~ alloc z' ;;
  z <~ load_ints Zchain ;;
  zt <~ lift (slice_step thinning z) ;;
  ret (posterior, where_nz (ediff1d zt)).

(** One turn of the plotting loop, lines 84-97. *)
Definition trace_panel (posterior : loc) (chains : bool) (xsep : seq nat)
    (thinning : Z) (npars xmax : nat) (i : nat) : M unit :=
  emit (subplot (Z.of_nat npars) 1 (Z.of_nat i + 1)) ;;
  p <~ load posterior ;;
  sh <~ lift (shape2 p) ;;
  rows <~ lift (slice_step thinning sh.2) ;;
  emit (plot (column i rows)) ;;
  now <~ drawn ;;
  let yran := get_ylim ext now in
  (if chains then emit (vlines [seq of_nat k | k <- xsep] yran.1 yran.2)
   else ret tt) ;;
  emit (xlim 0%Q (of_nat xmax)) ;;
  emit (ylim yran.1 yran.2).

Definition trace (posterior : loc) (Zchain : option loc)
    (thinning burnin fignum : Z) (savefile : option string) : M unit :=
  sel <~ (if Zchain is Some Zchain
          then trace_chains posterior Zchain thinning burnin
          else ret (posterior, [::])) ;;
  let: (posterior, xsep) := sel in
  p <~ load posterior ;;
  sh <~ lift (shape2 p) ;;
  let npars := sh.1 in
  thinned <~ lift (slice_step thinning sh.2) ;;
  let xmax := size thinned in
  emit (figure fignum 8 8) ;;
  emit clf ;;
  for_ (iota 0 npars)
       (trace_panel posterior (isSome Zchain) xsep thinning npars xmax) ;;
  save savefile.

(** *** pairwise (lines 103-214) *)

(** The local lists [hist], [xran], [yran], [lmax] of lines 152-153. *)
Record gathered := Gathered {
  g_hist : seq (seq (seq Q));
  g_xran : seq (seq Q);
  g_yran : seq (seq Q);
  g_lmax : seq Q
}.

(** Lines 156-162, for one cell [(j, i)] of the grid. *)
Definition gather_cell (posterior : loc) (thinning nbins : Z)
    (j : nat) (acc : gathered) (i : nat) : M gathered :=
  if i < j then
    p <~ load posterior ;;
    sh <~ lift (shape2 p) ;;
    rows <~ lift (slice_step thinning sh.2) ;;
    hxy <~ lift (np_histogram2d (column i rows) (column j rows) nbins) ;;
    let: (h, x, y) := hxy in
    top <~ lift (amax (flatten h)) ;;
    ret (Gathered (rcons (g_hist acc) (transpose h)) (rcons (g_xran acc) x)
                  (rcons (g_yran acc) y) (rcons (g_lmax acc) (top + 1)%Q))
  else ret acc.

(** Lines 177-198, for one cell: [hk] is the pair of counters [(h, k)]. *)
Definition draw_cell (npars : nat) (nlevels : Z) (g : gathered)
    (j : nat) (hk : nat * nat) (i : nat) : M (nat * nat) :=
  let: (h, k) := hk in
  k' <~ (if i < j then
           emit (subplot (Z.of_nat npars - 1) (Z.of_nat npars - 1) (Z.of_nat h)) ;;
           hist_k <~ lift (item (g_hist g) k) ;;
           lmax_k <~ lift (item (g_lmax g) k) ;;
           levels <~ lift (linspace 1 lmax_k nlevels) ;;
           xran_k <~ lift (item (g_xran g) k) ;;
           yran_k <~ lift (item (g_yran g) k) ;;
           x0 <~ lift (first_item xran_k) ;;
           x1 <~ lift (last_item xran_k) ;;
           y0 <~ lift (first_item yran_k) ;;
           y1 <~ lift (last_item yran_k) ;;
           emit (contourf hist_k 1 (0%Q :: levels) (x0, x1, y0, y1)) ;;
           ret k.+1
         else ret k) ;;
  ret (h.+1, k').

Definition pairwise (posterior : loc) (thinning fignum : Z)
    (savefile : option string) (nbins nlevels : Z) (absolute_dens : bool)
  : M unit :=
  p <~ load posterior ;;
  sh <~ lift (shape2 p) ;;
  let npars := sh.1 in
  if npars == 1 then ret tt
  else
    g <~ for_acc (iota 1 (npars - 1)) (Gathered [::] [::] [::] [::])
           (fun acc j => for_acc (iota 0 (npars - 1)) acc
                           (gather_cell posterior thinning nbins j)) ;;
    g <~ (if absolute_dens then
            top <~ lift (amax (g_lmax g)) ;;
            ret (Gathered (g_hist g) (g_xran g) (g_yran g)
                          (nseq (npars * (npars + 1) * 2) top))
          else ret g) ;;
    emit (figure fignum 8 8) ;;
    emit clf ;;
    for_acc (iota 1 (npars - 1)) (1, 0)
      (fun hk j => for_acc (iota 0 (npars - 1)) hk (draw_cell npars nlevels g j)) ;;
    bounds <~ lift (linspace 0 1 nlevels) ;;
    ticks <~ lift (linspace 0 1 5) ;;
    emit (colorbar bounds ticks) ;;
    save savefile.

(** *** histogram (lines 217-323) *)

(** Lines 273-277; [/] on Python 2 integers is floor division. *)
Definition nrows_of (npars : Z) : Z :=
  if (npars <? 10)%Z then ((npars - 1) / 3 + 1)%Z
  else ((npars - 1) / 4 + 1)%Z.

(** Lines 278-284. *)
Definition ncolumns_of (npars : Z) : Z :=
  if (npars >? 9)%Z then 4%Z
  else if (npars >? 4)%Z then 3%Z
  else ((npars + 2) / 3 + (npars + 2) mod 3)%Z.

(** [[a]] for an argument [a] that is an array or None. *)
Definition wrap_array (a : option loc) : M obj :=
  if a is Some l then
    o <~ load l ;;
    if o is Floats v then ret (Arrays [:: Some v]) else raise TypeError
  else ret (Arrays [:: None]).

(** Lines 253-258: after them [pdf] is a list; [xpdf] is whatever the
    caller gave when [pdf] was a list already. *)
Definition pdf_lists (npars : nat) (pdf xpdf : option loc)
  : M (loc * option loc) :=
  if pdf is Some l then
    o <~ load l ;;
    if o is Arrays _ then ret (l, xpdf)
    else
      p <~ wrap_array pdf ;;
      pl <~ alloc p ;;
      x <~ wrap_array xpdf ;;
      xl <~ alloc x ;;
      ret (pl, Some xl)
  else
    pl <~ alloc (Arrays (nseq npars None)) ;;
    xl <~ alloc (Arrays (nseq npars None)) ;;
    ret (pl, Some xl).

(** [l[i]] for a list of arrays [l]. *)
Definition list_item (l : option loc) (i : nat) : M (option (seq Q)) :=
  if l is Some l then
    o <~ load l ;;
    if o is Arrays a then lift (item a i) else raise TypeError
  else raise TypeError.

(** Lines 307-310: the histogram padded with an empty bin on each side
    and interpolated (nearest neighbour) at the bin centres. *)
Definition padded_interp (vals bins : seq Q) : res (seq Q -> seq Q) :=
  let vals := 0%Q :: rcons vals 0%Q in
  rbind (item bins 0) (fun b0 =>
  rbind (item bins 1) (fun b1 =>
  let bins := (b0 - (b1 - b0))%Q :: bins in
  rbind (item bins 0) (fun b0 =>
  rbind (item bins 1) (fun b1 =>
  Ok (interp1d_nearest ext [seq (b + (1 # 2) * (b1 - b0))%Q | b <- bins] vals))))).

(** Lines 305-313: the shaded region of panel [i]. *)
Definition hpd_region (posterior pdf : loc) (xpdf : option loc)
    (percentile : Q) (i : nat) (vals bins : seq Q) : M unit :=
  p <~ load posterior ;;
  sh <~ lift (shape2 p) ;;
  let sample := column i sh.2 in
  pdf_i <~ list_item (Some pdf) i ;;
  xpdf_i <~ list_item xpdf i ;;
  emit (credregion_call sample percentile pdf_i xpdf_i) ;;
  let: (PDF, Xpdf, HPDmin) := credregion ext sample percentile pdf_i xpdf_i in
  f <~ lift (padded_interp vals bins) ;;
  emit (fill_between Xpdf 0 (f Xpdf) [seq Qle_bool HPDmin d | d <- PDF]).

(** One turn of the loop of lines 293-315; [maxylim] is carried along. *)
Definition histogram_panel (posterior pdf : loc) (xpdf : option loc)
    (thinning : Z) (percentile : option Q) (nrows ncolumns : Z)
    (maxylim : Q) (i : nat) : M Q :=
  emit (subplot nrows ncolumns (Z.of_nat i + 1)) ;;
  p <~ load posterior ;;
  sh <~ lift (shape2 p) ;;
  rows <~ lift (slice_step thinning sh.2) ;;
  emit (hist (column i rows) 25 (isSome percentile)) ;;
  vb <~ lift (np_histogram (column i rows) 25) ;;
  (if percentile is Some pct
   then hpd_region posterior pdf xpdf pct i vb.1 vb.2
   else ret tt) ;;
  now <~ drawn ;;
  ret (Qmax maxylim (get_ylim ext now).2).

(** Lines 249-250: a 1-D sampling becomes a single column. *)
Definition expand_dims (posterior : loc) : M loc :=
  p <~ load posterior ;;
  match p with
  | Floats v => alloc (Matrix 1 [seq [:: x] | x <- v])
  | Ints v => alloc (Matrix 1 [seq [:: inject_Z x] | x <- v])
  | _ => ret posterior
  end.

Definition histogram (posterior : loc) (thinning fignum : Z)
    (savefile : option string) (percentile : option Q)
    (pdf xpdf : option loc) : M unit :=
  posterior <~ expand_dims posterior ;;
  p <~ load posterior ;;
  sh <~ lift (shape2 p) ;;
  let npars := sh.1 in
  lists <~ pdf_lists npars pdf xpdf ;;
  let nrows := nrows_of (Z.of_nat npars) in
  let ncolumns := ncolumns_of (Z.of_nat npars) in
  let histheight := Z.min (2 + 2 * nrows) 8 in
  emit (figure fignum 8 histheight) ;;
  emit clf ;;
  maxylim <~ for_acc (iota 0 npars) 0%Q
               (histogram_panel posterior lists.1 lists.2 thinning percentile
                                nrows ncolumns) ;;
  for_ (iota 0 npars) (fun i =>
    emit (subplot nrows ncolumns (Z.of_nat i + 1)) ;;
    emit (ylim 0 maxylim)) ;;
  save savefile.

(** *** RMS (lines 326-418) *)

(** [y[i] = v] on the list at [y]. *)
Definition setitem (y : loc) (i : nat) (v : Q) : M unit :=
  a <~ load_floats y ;;
  if i < size a then store y (Floats (set_nth 0%Q a i v))
  else raise IndexError.

(** [y[0], y[1]] read off the two-element range at [y]. *)
Definition range_at (y : loc) : M (Q * Q) :=
  a <~ load_floats y ;;
  lo <~ lift (item a 0) ;;
  hi <~ lift (item a 1) ;;
  ret (lo, hi).

(** [np.amax(a op b)] and [np.amin(a op b)] of two stored arrays. *)
Definition reduce2 (red : seq Q -> res Q) (op : Q -> Q -> Q) (a b : loc) : M Q :=
  x <~ load_floats a ;;
  y <~ load_floats b ;;
  v <~ lift (broadcast op x y) ;;
  lift (red v).

(** [(a op b)[::binstep]] *)
Definition stepped2 (op : Q -> Q -> Q) (a b : loc) (binstep : Z) : M (seq Q) :=
  x <~ load_floats a ;;
  y <~ load_floats b ;;
  v <~ lift (broadcast op x y) ;;
  lift (slice_stride binstep v).

(** Lines 373-378. *)
Definition default_yran (rms stderr rmslo rmshi : loc) (ratio : bool) : M loc :=
  lo <~ reduce2 amin Qminus rms rmslo ;;
  hi <~ reduce2 amax Qplus rms rmshi ;;
  yran <~ alloc (Floats [:: lo; hi]) ;;
  y <~ load_floats yran ;;
  y0 <~ lift (item y 0) ;;
  se <~ load_floats stderr ;;
  e <~ lift (last_item se) ;;
  m <~ lift (amin [:: y0; e]) ;;
  setitem yran 0 m ;;
  if ratio then
    top <~ reduce2 amax Qdiv rms stderr ;;
    alloc (Floats [:: 0%Q; (top + 1)%Q])
  else ret yran.

(** Lines 379-380. *)
Definition default_xran (binsz : loc) (cadence : Q) : M loc :=
  b <~ load_floats binsz ;;
  top <~ lift (amax [seq (x * cadence)%Q | x <- b]) ;;
  alloc (Floats [:: cadence; top]).

Definition RMS (binsz rms stderr rmslo rmshi : loc) (cadence : option Q)
    (binstep : Z) (timepoints : option loc) (ratio : bool) (fignum : Z)
    (yran xran : option loc) (savefile : option string) : M unit :=
  r <~ load_floats rms ;;
  if size r <= 1 then ret tt
  else
    let cadence := if cadence is Some c then c else 1%Q in
    yran <~ (if yran is Some y then ret y
             else default_yran rms stderr rmslo rmshi ratio) ;;
    xran <~ (if xran is Some x then ret x else default_xran binsz cadence) ;;
    emit (figure fignum 8 6) ;;
    emit clf ;;
    emit (subplot 1 1 1) ;;
    b <~ load_floats binsz ;;
    bs <~ lift (slice_stride binstep b) ;;
    let x := [seq (v * cadence)%Q | v <- bs] in
    (if ratio then
       y <~ stepped2 Qdiv rms stderr binstep ;;
       elo <~ stepped2 Qdiv rmslo stderr binstep ;;
       ehi <~ stepped2 Qdiv rmshi stderr binstep ;;
       emit (errorbar x y elo ehi) ;;
       xr <~ load_floats xran ;;
       emit (semilogx xr [:: 1%Q; 1%Q])
     else
       r <~ load_floats rms ;;
       y <~ lift (slice_stride binstep r) ;;
       lo <~ load_floats rmslo ;;
       elo <~ lift (slice_stride binstep lo) ;;
       hi <~ load_floats rmshi ;;
       ehi <~ lift (slice_stride binstep hi) ;;
       emit (errorbar x y elo ehi) ;;
       b <~ load_floats binsz ;;
       se <~ load_floats stderr ;;
       emit (loglog [seq (v * cadence)%Q | v <- b] se)) ;;
    tp <~ (if timepoints is Some t then load_floats t else ret [::]) ;;
    for_ tp (fun time =>
      yr <~ range_at yran ;;
      emit (vlines [:: time] yr.1 yr.2)) ;;
    yr <~ range_at yran ;;
    emit (ylim yr.1 yr.2) ;;
    xr <~ range_at xran ;;
    emit (xlim xr.1 xr.2) ;;
    save savefile.

(** *** modelfit (lines 421-477) *)

(** Line 449: [int((np.size(data)-1)/nbins + 1)] on Python 2 integers. *)
Definition binsize_of (n nbins : Z) : res Z :=
  if (nbins =? 0)%Z then Raise ZeroDivisionError
  else Ok ((n - 1) / nbins + 1)%Z.

Definition modelfit (data uncert indparams model : loc) (nbins fignum : Z)
    (savefile : option string) : M unit :=
  d <~ load_floats data ;;
  binsize <~ lift (binsize_of (Z.of_nat (size d)) nbins) ;;
  u <~ load_floats uncert ;;
  x <~ load_floats indparams ;;
  emit (binarray_call d u x binsize) ;;
  let: (bindata, binuncert, binindp) := binarray ext d u x binsize in
  m <~ load_floats model ;;
  emit (weightedbin_call m binsize) ;;
  let binmodel := weightedbin ext m binsize in
  emit (figure fignum 8 6) ;;
  emit clf ;;
  emit (axes (15 # 100) (1 # 10) (8 # 10) (2 # 10)) ;;
  resid <~ lift (broadcast Qminus bindata binmodel) ;;
  emit (errorbar binindp resid binuncert binuncert) ;;
  x <~ load_floats indparams ;;
  x0 <~ lift (first_item x) ;;
  x1 <~ lift (last_item x) ;;
  emit (plot_xy [:: x0; x1] [:: 0%Q; 0%Q]) ;;
  emit (axes (15 # 100) (35 # 100) (8 # 10) (55 # 100)) ;;
  emit (errorbar binindp bindata binuncert binuncert) ;;
  x <~ load_floats indparams ;;
  m <~ load_floats model ;;
  emit (plot_xy x m) ;;
  save savefile.

End Renderers.

(** A call from a caller that owns the arrays [args]: the routine gets
    their locations [0, 1, ...] in a store that holds nothing else, and
    draws on an empty figure. *)
Definition run A (m : M A) (args : seq obj) : mem * res A := m (Mem args [::]).

(** An optional array argument: when given, the caller's array is added
    to the store and its location is what the routine receives. *)
Definition with_opt (args : seq obj) (a : option obj) : seq obj :=
  if a is Some o then rcons args o else args.

Definition opt_loc (args : seq obj) (a : option obj) : option loc :=
  if a is Some _ then Some (size args) else None.

(** What [save] adds to the figure. *)
Definition saved (savefile : option string) : seq call :=
  if savefile is Some f then [:: savefig f] else [::].

(** Selectors on the calls of a figure. *)
Definition is_ylim (c : call) : bool := if c is ylim _ _ then true else false.

(** [ceil(n / nbins)] over the rationals. *)
Definition ceil_ratio (n nbins : Z) : Z := Qceiling (inject_Z n / inject_Z nbins).

(** The five arrays every call of [RMS] passes. *)
Definition rms_args (binsz rms stderr rmslo rmshi : seq Q) : seq obj :=
  [:: Floats binsz; Floats rms; Floats stderr; Floats rmslo; Floats rmshi].

(** *** The figure [histogram] draws *)

(** A posterior that [histogram] accepts, as [npars] columns. *)
Definition as_matrix (o : obj) : option (nat * seq (seq Q)) :=
  match o with
  | Matrix n rows => Some (n, rows)
  | Floats v => Some (1, [seq [:: x] | x <- v])
  | Ints v => Some (1, [seq [:: inject_Z x] | x <- v])
  | _ => None
  end.

(** What lines 253-258 leave in [pdf] and in [xpdf]. *)
Definition pdf_list (npars : nat) (pdf : option obj) : seq (option (seq Q)) :=
  match pdf with
  | None => nseq npars None
  | Some (Arrays P) => P
  | Some (Floats a) => [:: Some a]
  | Some _ => [::]
  end.

Definition xpdf_list (npars : nat) (pdf xpdf : option obj)
  : seq (option (seq Q)) :=
  match pdf with
  | None => nseq npars None
  | Some (Arrays _) => if xpdf is Some (Arrays X) then X else [::]
  | Some _ => if xpdf is Some (Floats b) then [:: Some b] else [:: None]
  end.

(** The [pdf], [xpdf] arguments with which every [pdf[i]], [xpdf[i]] the
    routine evaluates exists: nothing, one array for a single parameter,
    or lists with an entry per parameter ([hpd]: a percentile is given, so
    the entries are read). *)
Definition pdf_ok (npars : nat) (hpd : bool) (pdf xpdf : option obj) : bool :=
  match pdf with
  | None => true
  | Some (Arrays P) =>
      ~~ hpd || ((npars <= size P) &&
                 (if xpdf is Some (Arrays X) then npars <= size X else false))
  | Some (Floats _) =>
      (~~ hpd || (npars <= 1)) &&
      (match xpdf with None | Some (Floats _) => true | _ => false end)
  | Some _ => false
  end.

(** [posterior[0::thinning]] when the step is not zero. *)
Definition thin A (thinning : Z) (rows : seq A) : seq A :=
  if slice_step thinning rows is Ok t then t else [::].

Section Figures.

Variable ext : externals.

(** The curve of [padded_interp] when [bins] has its two first edges. *)
Definition pad_curve (vals bins : seq Q) : seq Q -> seq Q :=
  let b0 := nth 0%Q bins 0 in
  let b1 := nth 0%Q bins 1 in
  let b0' := (b0 - (b1 - b0))%Q in
  interp1d_nearest ext
    [seq (b + (1 # 2) * (b0 - b0'))%Q | b <- b0' :: bins] (0%Q :: rcons vals 0%Q).

(** The two calls of [hpd_region]. *)
Definition hpd_calls (pct : Q) (sample : seq Q) (pdf_i xpdf_i : option (seq Q))
    (vals bins : seq Q) : seq call :=
  let: (PDF, Xpdf, HPDmin) := credregion ext sample pct pdf_i xpdf_i in
  [:: credregion_call sample pct pdf_i xpdf_i;
      fill_between Xpdf 0 (pad_curve vals bins Xpdf)
                   [seq Qle_bool HPDmin d | d <- PDF]].

(** The calls of one turn of the loop of lines 293-315. *)
Definition panel_calls (percentile : option Q) (nrows ncolumns : Z)
    (rows thinned : seq (seq Q)) (P X : seq (option (seq Q))) (i : nat)
  : seq call :=
  let x := column i thinned in
  let vb := histogram_n x 25 in
  [:: subplot nrows ncolumns (Z.of_nat i + 1); hist x 25 (isSome percentile)]
  ++ (if percentile is Some pct
      then hpd_calls pct (column i rows) (nth None P i) (nth None X i) vb.1 vb.2
      else [::]).

(** [maxylim] after the panels [cs] were drawn on the figure [f]. *)
Fixpoint loop_max (f : seq call) (m : Q) (cs : seq (seq call)) : Q :=
  if cs is c :: cs' then loop_max (f ++ c) (Qmax m (get_ylim ext (f ++ c)).2) cs'
  else m.

(** The whole figure of [histogram]. *)
Definition histogram_figure (npars : nat) (rows : seq (seq Q)) (thinning : Z)
    (percentile : option Q) (P X : seq (option (seq Q))) (fignum : Z)
    (savefile : option string) : seq call :=
  let nrows := nrows_of (Z.of_nat npars) in
  let ncolumns := ncolumns_of (Z.of_nat npars) in
  let head := [:: figure fignum 8 (Z.min (2 + 2 * nrows) 8); clf] in
  let panels := [seq panel_calls percentile nrows ncolumns rows
                       (thin thinning rows) P X i | i <- iota 0 npars] in
  let maxylim := loop_max head 0%Q panels in
  head ++ flatten panels
  ++ flatten [seq [:: subplot nrows ncolumns (Z.of_nat i + 1); ylim 0 maxylim]
             | i <- iota 0 npars]
  ++ saved savefile.

End Figures.

(** Reading the store without running anything. *)
Definition matrix_at (h : seq obj) (l : loc) : nat * seq (seq Q) :=
  if nth (Bools [::]) h l is Matrix n rows then (n, rows) else (0, [::]).

Definition arrays_at (h : seq obj) (l : option loc) : seq (option (seq Q)) :=
  if l is Some l then
    if nth (Bools [::]) h l is Arrays a then a else [::]
  else [::].

Definition has_matrix (h : seq obj) (l : loc) : bool :=
  (l < size h) && (if nth (Bools [::]) h l is Matrix _ _ then true else false).

Definition has_arrays (h : seq obj) (l : option loc) : bool :=
  if l is Some l then
    (l < size h) && (if nth (Bools [::]) h l is Arrays _ then true else false)
  else false.

(** A routine returned [a] and left the figure [f]. *)
Definition returns A (out : mem * res A) (a : A) (f : seq call) : Prop :=
  out.2 = Ok a /\ fig out.1 = f.

(** *** Reading a figure *)

Definition is_fill (c : call) : bool :=
  if c is fill_between _ _ _ _ then true else false.

Definition is_hist (c : call) : bool := if c is hist _ _ _ then true else false.

Definition is_subplot (c : call) : bool :=
  if c is subplot _ _ _ then true else false.

Definition is_credregion (c : call) : bool :=
  if c is credregion_call _ _ _ _ then true else false.

Definition is_contourf (c : call) : bool :=
  if c is contourf _ _ _ _ then true else false.

(** The grid points a [fill_between] shades: those its [where] selects. *)
Definition shaded_points (c : call) : seq Q :=
  if c is fill_between x _ _ where_ then mask where_ x else [::].

(** The bin count of a [hist] call and the column count of a [subplot]. *)
Definition hist_bins (c : call) : Z := if c is hist _ bins _ then bins else 0%Z.

Definition subplot_columns (c : call) : Z :=
  if c is subplot _ ncols _ then ncols else 0%Z.

(** The grid points [Xpdf[k]] whose density [PDF[k]] reaches [HPDmin], for
    what the credible-region collaborator returns. *)
Definition hpd_points (ext : externals) (pct : Q) (sample : seq Q)
    (pdf_i xpdf_i : option (seq Q)) : seq Q :=
  let: (PDF, Xpdf, HPDmin) := credregion ext sample pct pdf_i xpdf_i in
  [seq xd.1 | xd <- zip Xpdf PDF & Qle_bool HPDmin xd.2].

(** A concrete set of collaborators, to run the routines on examples: the
    credible region thresholds the given density at [percentile]; the
    interpolation and the binning hand their input back. *)
Definition example_ext : externals :=
  Externals
    (fun sample pct pdf xpdf =>
       (if pdf is Some d then d else [seq 1%Q | _ <- sample],
        if xpdf is Some x then x else sample, pct))
    (fun x y xnew => xnew)
    (fun data uncert indparams binsize => (data, uncert, indparams))
    (fun model binsize => model)
    (fun drawn => (0%Q, of_nat (size drawn))).

(** *** The figure [pairwise] draws *)

(** The cells [(j, i)] of the grid in the order the two nested loops visit
    them, and those below the diagonal, where a panel is drawn. *)
Definition cells (npars : nat) : seq (nat * nat) :=
  [seq (j, i) | j <- iota 1 (npars - 1), i <- iota 0 (npars - 1)].

Definition below_diagonal (ji : nat * nat) : bool := ji.2 < ji.1.

Definition pairs (npars : nat) : seq (nat * nat) :=
  [seq ji <- cells npars | below_diagonal ji].

(** The 2-D histogram of the pair of columns [(i, j)]. *)
Definition pair_hist (rows : seq (seq Q)) (nbins : Z) (ji : nat * nat)
  : seq (seq Q) * seq Q * seq Q :=
  histogram2d_n (column ji.2 rows) (column ji.1 rows) (Z.to_nat nbins).

(** The largest bin count of a histogram. *)
Definition max_count (h : seq (seq Q)) : Q :=
  if amax (flatten h) is Ok v then v else 0%Q.

(** Line 162: what a panel appends to [lmax]; line 165: the value that
    replaces them all when [absolute_dens] is set. *)
Definition panel_lmax (rows : seq (seq Q)) (nbins : Z) (ji : nat * nat) : Q :=
  (max_count (pair_hist rows nbins ji).1.1 + 1)%Q.

Definition global_lmax (rows : seq (seq Q)) (nbins : Z) (npars : nat) : Q :=
  if amax [seq panel_lmax rows nbins ji | ji <- pairs npars] is Ok v then v
  else 0%Q.

(** Line 193: [[0] + list(np.linspace(1, lmax, nlevels))]. *)
Definition contour_levels (lmax : Q) (nlevels : Z) : seq Q :=
  0%Q :: linspace_nat 1 lmax (Z.to_nat nlevels).

(** The two calls that draw the panel of the cell [ji], which is the
    [h]-th cell visited. *)
Definition contour_calls (npars : nat) (rows : seq (seq Q)) (nbins nlevels : Z)
    (lmax_of : nat * nat -> Q) (h : nat) (ji : nat * nat) : seq call :=
  let: (counts_, x, y) := pair_hist rows nbins ji in
  [:: subplot (Z.of_nat npars - 1) (Z.of_nat npars - 1) (Z.of_nat h);
      contourf (transpose counts_) 1 (contour_levels (lmax_of ji) nlevels)
               (head 0%Q x, last 0%Q x, head 0%Q y, last 0%Q y)].

(** The cells with the value the counter [h] has when each is visited. *)
Definition numbered (h : nat) (cs : seq (nat * nat)) : seq (nat * (nat * nat)) :=
  zip (iota h (size cs)) cs.

Definition lmax_rule (rows : seq (seq Q)) (nbins : Z) (npars : nat)
    (absolute_dens : bool) : nat * nat -> Q :=
  if absolute_dens then fun _ => global_lmax rows nbins npars
  else panel_lmax rows nbins.

(** The whole figure of [pairwise] for two parameters or more. *)
Definition pairwise_figure (npars : nat) (rows : seq (seq Q))
    (thinning fignum : Z) (savefile : option string) (nbins nlevels : Z)
    (absolute_dens : bool) : seq call :=
  let t := thin thinning rows in
  [:: figure fignum 8 8; clf]
  ++ flatten [seq contour_calls npars t nbins nlevels
                    (lmax_rule t nbins npars absolute_dens) hc.1 hc.2
             | hc <- numbered 1 (cells npars) & below_diagonal hc.2]
  ++ [:: colorbar (linspace_nat 0 1 (Z.to_nat nlevels)) (linspace_nat 0 1 5)]
  ++ saved savefile.

(** What one cell adds to the lists gathered by the first loop. *)
Definition gather_step (rows : seq (seq Q)) (nbins : Z) (acc : gathered)
    (ji : nat * nat) : gathered :=
  if below_diagonal ji then
    let: (counts_, x, y) := pair_hist rows nbins ji in
    Gathered (rcons (g_hist acc) (transpose counts_)) (rcons (g_xran acc) x)
             (rcons (g_yran acc) y)
             (rcons (g_lmax acc) (max_count counts_ + 1)%Q)
  else acc.

(** The lists gathered from the panels [ps], with the [lmax] given. *)
Definition gathered_of (rows : seq (seq Q)) (nbins : Z)
    (ps : seq (nat * nat)) (lmax : seq Q) : gathered :=
  Gathered [seq transpose (pair_hist rows nbins ji).1.1 | ji <- ps]
           [seq (pair_hist rows nbins ji).1.2 | ji <- ps]
           [seq (pair_hist rows nbins ji).2 | ji <- ps]
           lmax.

(** The histogram and the levels a [contourf] call was given. *)
Definition contour_data (c : call) : seq (seq Q) :=
  if c is contourf h _ _ _ then h else [::].

Definition contour_levels_of (c : call) : seq Q :=
  if c is contourf _ _ levels _ then levels else [::].

(** *** What [trace] plots *)

(** [a[idx] = True] when every index is in range. *)
Definition mark (g : seq bool) (idx : seq nat) : seq bool :=
  foldl (fun g k => set_nth false g k true) g idx.

(** [good] after the loop of lines 51-52 over the chains [0 .. nchains-1]. *)
Definition good_mask (z : seq Z) (burnin nchains : Z) : seq bool :=
  foldl (fun g c => mark g (slice_from burnin (where_eq z c)))
        (nseq (size z) false) (arange nchains).

Definition nchains_of (z : seq Z) : Z :=
  if amaxZ z is Ok top then (top + 1)%Z else 0%Z.

(** Lines 54-59 on values: the entries of [a] that [good] keeps, reordered
    by the indices that sort the kept chain ids. *)
Definition kept A (z : seq Z) (burnin : Z) (a : seq A) : seq A :=
  mask (good_mask z burnin (nchains_of z)) a.

Definition by_chain A (d : A) (z : seq Z) (burnin : Z) (a : seq A) : seq A :=
  [seq nth d (kept z burnin a) k | k <- lexsort (kept z burnin z)].

(** The positions at which consecutive entries differ. *)
Definition changes (z : seq Z) : seq nat :=
  [seq k <- iota 0 (size z).-1 | ~~ (nth 0%Z z k =? nth 0%Z z k.+1)%Z].

(** The calls of one turn of the loop of lines 83-97 on the figure [f]. *)
Definition trace_panel_calls (ext : externals) (chains : bool) (xsep : seq nat)
    (npars xmax : nat) (rows : seq (seq Q)) (f : seq call) (i : nat)
  : seq call :=
  let pre := [:: subplot (Z.of_nat npars) 1 (Z.of_nat i + 1);
                 plot (column i rows)] in
  let yran := get_ylim ext (f ++ pre) in
  pre ++ (if chains then [:: vlines [seq of_nat k | k <- xsep] yran.1 yran.2]
          else [::])
  ++ [:: xlim 0 (of_nat xmax); ylim yran.1 yran.2].

(** The figure after the panels [idx] were added to [f]. *)
Definition trace_panels (ext : externals) (chains : bool) (xsep : seq nat)
    (npars xmax : nat) (rows : seq (seq Q)) (f : seq call) (idx : seq nat)
  : seq call :=
  foldl (fun f i => f ++ trace_panel_calls ext chains xsep npars xmax rows f i)
        f idx.

Definition is_plot (c : call) : bool := if c is plot _ then true else false.

Definition is_vlines (c : call) : bool := if c is vlines _ _ _ then true else false.

Definition plotted (c : call) : seq Q := if c is plot y then y else [::].

Definition vlines_at (c : call) : seq Q := if c is vlines x _ _ then x else [::].

(** The order of samples by chain id. *)
Definition chain_le (x y : Z * seq Q) : bool := (x.1 <=? y.1)%Z.

(** The whole figure of [trace], for the rows it ends up plotting. *)
Definition trace_figure (ext : externals) (npars : nat) (rows : seq (seq Q))
    (chains : bool) (xsep : seq nat) (thinning fignum : Z)
    (savefile : option string) : seq call :=
  trace_panels ext chains xsep npars (size (thin thinning rows))
               (thin thinning rows) [:: figure fignum 8 8; clf] (iota 0 npars)
  ++ saved savefile.

(** *** What a routine leaves alone *)

(** [m] leaves the first [n] objects of the store as they were, whether it
    returns or raises.  For a call, [n] is the size of the store on entry:
    every array of the caller is among those objects. *)
Definition frame (n : nat) A (m : M A) : Prop :=
  forall s, n <= size (heap s) ->
    n <= size (heap (m s).1) /\ take n (heap (m s).1) = take n (heap s).

(** *** Sample inputs *)

(** The sampling of the example of the specification, a density on a grid
    of three points, and a sampling of two parameters. *)
Definition sample6 : seq Q := [:: 1; 2; 2; 3; 3; 3]%Q.

Definition density3 : seq Q := [:: 1 # 10; 5 # 10; 9 # 10]%Q.

Definition grid3 : seq Q := [:: 1; 2; 3]%Q.

Definition rows6 : seq (seq Q) :=
  [:: [:: 1; 2]; [:: 3; 4]; [:: 5; 6]; [:: 7; 8]; [:: 9; 10]; [:: 11; 12]]%Q.

(** Three parameters, four samples. *)
Definition rows4 : seq (seq Q) :=
  [:: [:: 1; 2; 1]; [:: 3; 4; 1]; [:: 5; 6; 7]; [:: 5; 1; 7]]%Q.

(** Four parameters, two samples. *)
Definition rows2 : seq (seq Q) := [:: [:: 1; 2; 3; 4]; [:: 2; 3; 4; 5]]%Q.

(** Six samples of one parameter drawn by two chains in turn. *)
Definition column6 : seq (seq Q) :=
  [:: [:: 1]; [:: 2]; [:: 3]; [:: 4]; [:: 5]; [:: 6]]%Q.

Definition chains6 : seq Z := [:: 0; 1; 0; 1; 0; 1]%Z.

(** The store of the call [RMS(binsz=[1], rms=[5], ...)]. *)
Definition single_point : mem :=
  Mem (rms_args [:: 1]%Q [:: 5]%Q [:: 1]%Q [:: 0]%Q [:: 0]%Q) [::].

(** *** What a routine adds to the figure *)

(** [m] only appends to the figure, and what it appends satisfies [P],
    whether it returns or raises. *)
Definition adds (P : seq call -> Prop) A (m : M A) : Prop :=
  forall s, exists2 cs, fig (m s).1 = fig s ++ cs & P cs.

(** Every call that [m] appends satisfies [p]. *)
Definition only (p : pred call) A (m : M A) : Prop :=
  adds (fun cs => all p cs) m.

Definition is_savefig (c : call) : bool := if c is savefig _ then true else false.

(** The calls into matplotlib, as opposed to those into the collaborators
    of the repository. *)
Definition is_pyplot (c : call) : bool :=
  match c with
  | credregion_call _ _ _ _ | binarray_call _ _ _ _ | weightedbin_call _ _ => false
  | _ => true
  end.

(** The matplotlib calls among [cs], if there are any, start by selecting
    the figure [fignum] and clearing it. *)
Definition opens (fignum : Z) (cs : seq call) : bool :=
  match [seq c <- cs | is_pyplot c] with
  | [::] => true
  | figure n _ _ :: clf :: _ => n == fignum
  | _ => false
  end.

(** What a call that returns has appended to the figure satisfies [P]. *)
Definition adds_on_return (P : seq call -> Prop) A (m : M A) : Prop :=
  forall s a, (m s).2 = Ok a -> exists2 cs, fig (m s).1 = fig s ++ cs & P cs.

(** The last of the calls [cs] saves the figure to [file], and no other
    call saves it. *)
Definition saves_last (file : string) (cs : seq call) : Prop :=
  exists2 before, cs = rcons before (savefig file) & ~~ has is_savefig before.

(** A histogram drawn as bars, with no credible region asked for or
    shaded. *)
Definition plain_histogram (c : call) : bool :=
  match c with
  | credregion_call _ _ _ _ | fill_between _ _ _ _ => false
  | hist _ _ step => ~~ step
  | _ => true
  end.

(** Nothing at all, or a figure that was saved. *)
Definition skipped_or_saved (file : string) (cs : seq call) : Prop :=
  cs = [::] \/ saves_last file cs.

(** The calls that save no figure, and those that are not matplotlib's. *)
Abbreviation not_savefig := (fun c : call => ~~ is_savefig c).

Abbreviation silent := (fun c : call => ~~ is_pyplot c).

(** *** More on what [trace] plots *)

Definition is_xlim (c : call) : bool := if c is xlim _ _ then true else false.

(** The samples of which [trace] plots every [thinning]-th: those kept
    and sorted by chain when the chain indices are given, all of them
    in the order given otherwise. *)
Definition trace_rows (Zchain : option (seq Z)) (burnin : Z)
    (rows : seq (seq Q)) : seq (seq Q) :=
  if Zchain is Some z then by_chain [::] z burnin rows else rows.

(** The separators [trace] draws in each panel. *)
Definition trace_xsep (Zchain : option (seq Z)) (thinning burnin : Z)
  : seq nat :=
  if Zchain is Some z then changes (thin thinning (by_chain 0%Z z burnin z))
  else [::].

(** The arguments of a call of [trace] are well formed: a chain index,
    when given, for every sample, and at least one sample. *)
Definition trace_ok (rows : seq (seq Q)) (Zchain : option (seq Z)) : bool :=
  if Zchain is Some z then (0 < size z) && (size rows == size z) else true.

(** *** More on what [pairwise] draws *)

Definition is_colorbar (c : call) : bool :=
  if c is colorbar _ _ then true else false.

(** The value of the counter [h] of line 173 when the cell [(j, i)] is
    visited: the cell is in row [j - 1] and column [i] of the grid. *)
Definition grid_index (npars : nat) (ji : nat * nat) : nat :=
  (ji.1 - 1) * (npars - 1) + ji.2 + 1.

(** *** More on what [histogram] draws *)

(** The upper y-limit matplotlib reports for each of the panels [cs],
    read right after the panel was drawn on the figure [f]: the values
    of [ax.get_ylim()[1]] at line 315. *)
Fixpoint panel_tops (ext : externals) (f : seq call) (cs : seq (seq call))
  : seq Q :=
  if cs is c :: cs' then (get_ylim ext (f ++ c)).2 :: panel_tops ext (f ++ c) cs'
  else [::].

(** The calls that draw the panels of [histogram], panel by panel. *)
Definition histogram_panel_calls (ext : externals) (npars : nat)
    (rows : seq (seq Q)) (thinning : Z) (percentile : option Q)
    (P X : seq (option (seq Q))) : seq (seq call) :=
  [seq panel_calls ext percentile (nrows_of (Z.of_nat npars))
         (ncolumns_of (Z.of_nat npars)) rows (thin thinning rows) P X i
  | i <- iota 0 npars].

(** The height of the figure, line 286. *)
Definition histheight_of (npars : nat) : Z :=
  Z.min (2 + 2 * nrows_of (Z.of_nat npars)) 8.

(** *** What [RMS] draws *)

(** [a op b], element by element, for two arrays of one length. *)
Definition elementwise (op : Q -> Q -> Q) (a b : seq Q) : seq Q :=
  [seq op x.1 x.2 | x <- zip a b].

(** [a[::binstep]] when the step is not zero. *)
Definition stride A (binstep : Z) (a : seq A) : seq A :=
  if slice_stride binstep a is Ok t then t else [::].

(** [np.amin(a)] and [np.amax(a)] of an array that is not empty. *)
Definition min_of (a : seq Q) : Q := if amin a is Ok v then v else 0%Q.

Definition max_of (a : seq Q) : Q := if amax a is Ok v then v else 0%Q.

(** The time between data points, lines 366-370. *)
Definition cadence_of (cadence : option Q) : Q :=
  if cadence is Some c then c else 1%Q.

(** The y-range of lines 372-378: the caller's, or the default one. *)
Definition rms_yran (rms stderr rmslo rmshi : seq Q) (ratio : bool)
    (yran : option (seq Q)) : Q * Q :=
  match yran with
  | Some y => (nth 0%Q y 0, nth 0%Q y 1)
  | None =>
      if ratio then (0%Q, (max_of (elementwise Qdiv rms stderr) + 1)%Q)
      else (Qmin (min_of (elementwise Qminus rms rmslo)) (last 0%Q stderr),
            max_of (elementwise Qplus rms rmshi))
  end.

(** The x-range of lines 379-380: the caller's, or the default one. *)
Definition rms_xran (binsz : seq Q) (cadence : Q) (xran : option (seq Q))
  : seq Q :=
  if xran is Some x then x
  else [:: cadence; max_of [seq (b * cadence)%Q | b <- binsz]].

(** The curves of lines 392-406. *)
Definition rms_curves (binsz rms stderr rmslo rmshi : seq Q) (cadence : Q)
    (binstep : Z) (ratio : bool) (xran : seq Q) : seq call :=
  let x := [seq (v * cadence)%Q | v <- stride binstep binsz] in
  if ratio then
    [:: errorbar x (stride binstep (elementwise Qdiv rms stderr))
                 (stride binstep (elementwise Qdiv rmslo stderr))
                 (stride binstep (elementwise Qdiv rmshi stderr));
        semilogx xran [:: 1%Q; 1%Q]]
  else
    [:: errorbar x (stride binstep rms) (stride binstep rmslo)
                 (stride binstep rmshi);
        loglog [seq (v * cadence)%Q | v <- binsz] stderr].

(** The whole figure of [RMS] for two RMS values or more. *)
Definition rms_figure (binsz rms stderr rmslo rmshi : seq Q)
    (cadence : option Q) (binstep : Z) (timepoints : seq Q) (ratio : bool)
    (fignum : Z) (yran xran : option (seq Q)) (savefile : option string)
  : seq call :=
  let cad := cadence_of cadence in
  let yr := rms_yran rms stderr rmslo rmshi ratio yran in
  let xr := rms_xran binsz cad xran in
  [:: figure fignum 8 6; clf; subplot 1 1 1]
  ++ rms_curves binsz rms stderr rmslo rmshi cad binstep ratio xr
  ++ [seq vlines [:: t] yr.1 yr.2 | t <- timepoints]
  ++ [:: ylim yr.1 yr.2; xlim (nth 0%Q xr 0) (nth 0%Q xr 1)]
  ++ saved savefile.

(** A range given by the caller has two entries. *)
Definition range_ok (r : option (seq Q)) : bool :=
  if r is Some a then size a == 2 else true.

(** The arrays of a call of [RMS] have one length, and there are two RMS
    values or more. *)
Definition rms_ok (binsz rms stderr rmslo rmshi : seq Q) : bool :=
  [&& 1 < size rms, size binsz == size rms, size stderr == size rms,
      size rmslo == size rms & size rmshi == size rms].

Definition is_errorbar (c : call) : bool :=
  if c is errorbar _ _ _ _ then true else false.

Definition is_reference (c : call) : bool :=
  match c with semilogx _ _ | loglog _ _ => true | _ => false end.

(** The two first entries of the array at [l], when it has them. *)
Definition range_of (h : seq obj) (l : loc) : Q * Q :=
  if nth (Bools [::]) h l is Floats (a :: b :: _) then (a, b) else (0%Q, 0%Q).

Definition has_range (h : seq obj) (l : loc) : bool :=
  (l < size h)
  && (if nth (Bools [::]) h l is Floats (_ :: _ :: _) then true else false).

(** *** What [modelfit] draws *)

Definition is_axes (c : call) : bool := if c is axes _ _ _ _ then true else false.

Definition is_plot_xy (c : call) : bool :=
  if c is plot_xy _ _ then true else false.

(** The y-range a [vlines] call spans or a [ylim] call sets. *)
Definition y_span (c : call) : Q * Q :=
  match c with
  | vlines _ lo hi | ylim lo hi => (lo, hi)
  | _ => (0%Q, 0%Q)
  end.

(** *** More sample inputs *)

(** Chain indices with a negative one among them. *)
Definition chains_mixed : seq Z := [:: 0; -1; 0; 1; 0; 1]%Z.

(** Two bin sizes with their RMS, the white-noise RMS and the
    uncertainties of the RMS on both sides. *)
Definition binsz2 : seq Q := [:: 1; 2]%Q.

Definition rms2 : seq Q := [:: 4; 2]%Q.

Definition stderr2 : seq Q := [:: 2; 1]%Q.

Definition rmserr2 : seq Q := [:: 1; 1]%Q.

(** ** Running a routine step by step

    One equation per primitive: what a routine that starts with it does
    from a given store and figure. *)

Arguments bind : simpl never.
Arguments for_ : simpl never.
Arguments for_acc : simpl never.
Arguments iota : simpl never.
Arguments amax : simpl nomatch.
Arguments amin : simpl nomatch.
Arguments amaxZ : simpl nomatch.
Arguments broadcast : simpl never.
Arguments slice_step : simpl never.
Arguments slice_stride : simpl never.
Arguments linspace : simpl never.
Arguments np_histogram : simpl never.
Arguments histogram_n : simpl never.
Arguments pad_curve : simpl never.
Arguments panel_calls : simpl never.
Arguments nrows_of : simpl never.
Arguments ncolumns_of : simpl never.
Arguments np_histogram2d : simpl never.
Arguments histogram2d_n : simpl never.
Arguments pair_hist : simpl never.
Arguments set_true : simpl never.
Arguments getitem_mask : simpl never.
Arguments getitem_idx : simpl never.
Arguments lexsort : simpl never.
Arguments where_eq : simpl never.
Arguments where_nz : simpl never.
Arguments ediff1d : simpl nomatch.
Arguments arange : simpl never.
Arguments column : simpl never.
Arguments transpose : simpl never.

Section Steps.

Variables (A B C : Type).

Lemma bindA (m : M A) (f : A -> M B) (k : B -> M C) s :
  (y <~ (x <~ m ;; f x) ;; k y) s = (x <~ m ;; y <~ f x ;; k y) s.
Proof. by rw /bind; case: (m s) => s' []. Qed.

Lemma bind_retE (a : A) (k : A -> M B) s : (x <~ ret a ;; k x) s = k a s.
Proof. by []. Qed.

Lemma bind_lift_ok (a : A) (k : A -> M B) s : (x <~ lift (Ok a) ;; k x) s = k a s.
Proof. by []. Qed.

Lemma bind_raiseE e (k : A -> M B) s : (x <~ raise e ;; k x) s = (s, Raise e).
Proof. by []. Qed.

Lemma bind_emitE c (k : unit -> M B) s :
  (x <~ emit c ;; k x) s = k tt (Mem (heap s) (rcons (fig s) c)).
Proof. by []. Qed.

Lemma bind_drawnE (k : seq call -> M B) s : (x <~ drawn ;; k x) s = k (fig s) s.
Proof. by []. Qed.

Lemma bind_allocE o (k : loc -> M B) s :
  (l <~ alloc o ;; k l) s = k (size (heap s)) (Mem (rcons (heap s) o) (fig s)).
Proof. by []. Qed.

Lemma bind_loadE l (k : obj -> M B) s :
  (o <~ load l ;; k o) s =
  if l < size (heap s) then k (nth (Bools [::]) (heap s) l) s
  else (s, Raise ValueError).
Proof. by rw /bind /load; case: ifP. Qed.

Lemma bind_storeE l o (k : unit -> M B) s :
  (x <~ store l o ;; k x) s =
  if l < size (heap s)
  then k tt (Mem (set_nth (Bools [::]) (heap s) l o) (fig s))
  else (s, Raise ValueError).
Proof. by rw /bind /store; case: ifP. Qed.

End Steps.

(** Run the first statement of a routine, unless it is a loop: a loop is
    run by the lemma that describes it. *)
Ltac mstep :=
  lazymatch goal with
  | |- context [bind (for_ _ _) _ _] => fail
  | |- context [bind (for_acc _ _ _) _ _] => fail
  | _ => idtac
  end;
  rw ?bindA;
  first [ rw bind_retE | rw bind_lift_ok | rw bind_raiseE | rw bind_emitE
        | rw bind_drawnE | rw bind_allocE | rw bind_loadE | rw bind_storeE ];
  rw /=.

Ltac mrun := repeat mstep.

(** ** Facts about the numpy operations *)

Lemma broadcast_same op (a b : seq Q) :
  size a = size b -> broadcast op a b = Ok [seq op x.1 x.2 | x <- zip a b].
Proof. by rw /broadcast => ->; rw eqxx. Qed.

Lemma amax_ok (a : seq Q) : 0 < size a -> exists v, amax a = Ok v.
Proof. by case: a => // x a _; exists (foldl Qmax x a). Qed.

Lemma amin_ok (a : seq Q) : 0 < size a -> exists v, amin a = Ok v.
Proof. by case: a => // x a _; exists (foldl Qmin x a). Qed.

Lemma slice_stride_ok A (step : Z) (s : seq A) :
  step <> 0%Z -> exists t, slice_stride step s = Ok t.
Proof.
move=> nz; rw /slice_stride; case: Z.eqb_spec => // _.
by case: (0 <? step)%Z; eexists.
Qed.

Lemma slice_step_ok A (step : Z) (s : seq A) :
  step <> 0%Z -> exists t, slice_step step s = Ok t.
Proof.
move=> nz; rw /slice_step; case: Z.eqb_spec => // _.
by case: (0 <? step)%Z; eexists.
Qed.

Lemma saveE savefile s :
  save savefile s = (Mem (heap s) (fig s ++ saved savefile), Ok tt).
Proof. by case: s savefile => h f [n|]; rw /save /= ?cats0 ?cats1. Qed.

Lemma for_cons A (x : A) xs body : for_ (x :: xs) body = (body x ;; for_ xs body).
Proof. by []. Qed.

Lemma for_acc_cons A B (x : A) xs (acc : B) body :
  for_acc (x :: xs) acc body = (acc' <~ body acc x ;; for_acc xs acc' body).
Proof. by []. Qed.

(** A loop whose turns only draw, run from the store [h]. *)
Lemma for_emitE A (body : A -> M unit) (c : A -> seq call) xs h f :
  (forall x f, body x (Mem h f) = (Mem h (f ++ c x), Ok tt)) ->
  for_ xs body (Mem h f) = (Mem h (f ++ flatten [seq c x | x <- xs]), Ok tt).
Proof.
move=> Hbody; elim: xs f => [|x xs IH] f; first by rw /= cats0.
by rw for_cons /bind Hbody IH /= catA.
Qed.

(** * modelfit *)

Lemma binsize_floor_ceil (n nbins : Z) :
  (1 <= n)%Z -> (1 <= nbins)%Z -> ((n - 1) / nbins + 1)%Z = ceil_ratio n nbins.
Proof.
move=> Hn Hb; rw /ceil_ratio /Qceiling /Qfloor.
case: nbins Hb => [|p|p] // _.
rw /Qdiv /Qinv /= Z.mul_1_r.
have Hp : (0 < Z.pos p)%Z by [].
have := Z.div_mod (n - 1) (Z.pos p) ltac:(lia).
have := Z.mod_pos_bound (n - 1) (Z.pos p) Hp.
move: ((n - 1) / Z.pos p)%Z ((n - 1) mod Z.pos p)%Z => q r Hr Hq.
suff -> : (- n / Z.pos p = - (q + 1))%Z by lia.
symmetry; apply: (Z.div_unique_pos _ _ _ (Z.pos p - 1 - r)%Z); lia.
Qed.

(** C6: for data of length [n >= 1] and [nbins >= 1], [modelfit] hands
    [binsize = (n-1)//nbins + 1] to the binning collaborator (its first two
    calls are [binarray] and [weightedbin] with that bin size), and this
    value is [ceil(n / nbins)]. *)
Theorem modelfit_binsize ext (data uncert indparams model : seq Q)
    (nbins fignum : Z) savefile :
  0 < size data -> (1 <= nbins)%Z ->
  let n := Z.of_nat (size data) in
  let binsize := ((n - 1) / nbins + 1)%Z in
  [/\ binsize_of n nbins = Ok binsize,
      take 2 (fig (run (modelfit ext 0 1 2 3 nbins fignum savefile)
                       [:: Floats data; Floats uncert; Floats indparams;
                           Floats model]).1)
      = [:: binarray_call data uncert indparams binsize;
            weightedbin_call model binsize]
    & binsize = ceil_ratio n nbins].
Proof.
move=> Hn Hb n binsize.
have En : binsize_of n nbins = Ok binsize.
  by rw /binsize_of; case: Z.eqb_spec => // E; move: Hb; rw E.
split=> //; last by apply: binsize_floor_ceil => //; rw /n; move/ltP: Hn; lia.
rw /run /modelfit /load_floats; mrun; rw En; mrun.
case: (binarray _ _ _ _ _) => [[bindata binuncert] binindp].
mrun.
rw [X in X.1]/bind /=.
case: (broadcast _ _ _) => [resid|e] //; mrun.
by case: indparams => [|x0 xs] //; mrun; rw saveE.
Qed.

(** * RMS *)

(** C8: when the array at [rms] holds fewer than two values, [RMS] returns
    at once: the store and the figure are what they were, so no figure is
    created, cleared or saved. *)
Theorem RMS_single_point_noop (s : mem) (binsz rms stderr rmslo rmshi : loc)
    cadence binstep timepoints ratio fignum yran xran savefile (r : seq Q) :
  load rms s = (s, Ok (Floats r)) -> size r <= 1 ->
  RMS binsz rms stderr rmslo rmshi cadence binstep timepoints ratio fignum
      yran xran savefile s = (s, Ok tt).
Proof. by move=> Hload Hr; rw /RMS /load_floats bindA /bind Hload /= Hr. Qed.

(** The loop of lines 407-408, for a y-range [[lo, hi]] stored at [yran]. *)
Lemma RMS_vlines_loop B (k : unit -> M B) yran lo hi (tp : seq Q) h f :
  (forall f, range_at yran (Mem h f) = (Mem h f, Ok (lo, hi))) ->
  (x <~ for_ tp (fun time => yr <~ range_at yran ;;
                             emit (vlines [:: time] yr.1 yr.2)) ;; k x) (Mem h f)
  = k tt (Mem h (f ++ [seq vlines [:: t] lo hi | t <- tp])).
Proof.
move=> Hy; rw {1}/bind (for_emitE (c := fun t => [:: vlines [:: t] lo hi])).
  by move=> t g; rw /bind Hy /= /emit /= cats1.
by rw /=; congr (k tt (Mem h (f ++ _))); elim: tp => //= t tp ->.
Qed.

Lemma vlines_not_ylim (tp : seq Q) lo hi :
  [seq c <- [seq vlines [:: t] lo hi | t <- tp] | is_ylim c] = [::].
Proof. by elim: tp. Qed.

Lemma saved_not_ylim savefile : [seq c <- saved savefile | is_ylim c] = [::].
Proof. by case: savefile. Qed.


(** * histogram *)

Lemma flatten_cons A (s : seq A) ss : flatten (s :: ss) = s ++ flatten ss.
Proof. by []. Qed.

Lemma item_nth A (d : A) (s : seq A) i : i < size s -> item s i = Ok (nth d s i).
Proof. by case: s => // x s Hi; rw /item Hi (set_nth_default d). Qed.

Lemma padded_interpE ext (vals bins : seq Q) :
  1 < size bins -> padded_interp ext vals bins = Ok (pad_curve ext vals bins).
Proof. by case: bins => [|b0 [|b1 bins]]. Qed.

Lemma size_linspace_nat lo hi n : size (linspace_nat lo hi n) = n.
Proof.
rw /linspace_nat /linspace; case: Z.ltb_spec => [|_]; first by lia.
rw Nat2Z.id; case: n => [|[|n]] //=.
by rw size_rcons size_map size_iota.
Qed.

Lemma size_histogram_edges a n : size (histogram_n a n).2 = n.+1.
Proof. by rw /histogram_n; case: data_range => lo hi; rw size_linspace_nat. Qed.

Lemma thinE A thinning (rows : seq A) :
  thinning <> 0%Z -> slice_step thinning rows = Ok (thin thinning rows).
Proof. by move=> /slice_step_ok -/(_ _ rows) [t E]; rw /thin E. Qed.

Section HistogramRun.

Variables (ext : externals) (h : seq obj) (posterior pdf : loc).
Variables (xpdf : option loc) (npars : nat) (rows : seq (seq Q)).
Variables (P X : seq (option (seq Q))) (thinning : Z) (percentile : option Q).
Variables (nrows ncolumns : Z).

Hypothesis Hpost : posterior < size h.
Hypothesis Hrows : nth (Bools [::]) h posterior = Matrix npars rows.
Hypothesis Hthin : thinning <> 0%Z.
Hypothesis Hpdf : percentile -> pdf < size h /\ nth (Bools [::]) h pdf = Arrays P.
Hypothesis Hxpdf : percentile ->
  exists2 l, xpdf = Some l & l < size h /\ nth (Bools [::]) h l = Arrays X.

Local Abbreviation calls :=
  (panel_calls ext percentile nrows ncolumns rows (thin thinning rows) P X).

Lemma histogram_panelE m i f :
  (percentile -> i < size P /\ i < size X) ->
  histogram_panel ext posterior pdf xpdf thinning percentile nrows ncolumns m i
                  (Mem h f)
  = (Mem h (f ++ calls i), Ok (Qmax m (get_ylim ext (f ++ calls i)).2)).
Proof.
move=> Hi; rw /histogram_panel; mrun; rw Hpost Hrows; mrun.
rw thinE //; mrun.
rw (_ : Pos.to_nat 25 = 25) // /panel_calls.
case: percentile Hpdf Hxpdf Hi => [pct|] /=; last first.
  by move=> _ _ _; mrun; rw -!cats1 -!catA.
move=> /(_ isT) [Hl HP] /(_ isT) [l -> [Hl' HX]] /(_ isT) [iP iX].
rw /hpd_region /list_item /hpd_calls; mrun; rw Hpost Hrows; mrun.
rw Hl HP; mrun; rw (item_nth None) //; mrun.
rw Hl' HX; mrun; rw (item_nth None) //; mrun.
case: credregion => [[PDF Xpdf] HPDmin]; mrun.
rw padded_interpE ?size_histogram_edges //; mrun.
by rw -!cats1 -!catA.
Qed.

Lemma histogram_loopE B (k : Q -> M B) idx m f :
  (percentile -> forall i, i \in idx -> i < size P /\ i < size X) ->
  (x <~ for_acc idx m (histogram_panel ext posterior pdf xpdf thinning
                         percentile nrows ncolumns) ;; k x) (Mem h f)
  = k (loop_max ext f m [seq calls i | i <- idx])
      (Mem h (f ++ flatten [seq calls i | i <- idx])).
Proof.
elim: idx m f => [|i idx IH] m f Hidx; first by rw /= cats0.
have Ei : percentile -> i < size P /\ i < size X.
  by move=> Hp; apply: Hidx => //; rw mem_head.
have Ej : percentile -> forall j, j \in idx -> j < size P /\ j < size X.
  by move=> Hp j Hj; apply: Hidx => //; rw in_cons Hj orbT.
rw map_cons flatten_cons for_acc_cons bindA {1}/bind.
rw (histogram_panelE _ _ Ei); cbv beta iota.
by rw (IH _ _ Ej) catA.
Qed.

End HistogramRun.

(** The loop of lines 293-315 over all the parameters, read off the store. *)
Lemma histogram_panelsE ext B (k : Q -> M B) h posterior pdf xpdf thinning
    percentile nrows ncolumns n m f :
  has_matrix h posterior -> thinning <> 0%Z ->
  (isSome percentile ==>
   [&& has_arrays h (Some pdf), has_arrays h xpdf,
       n <= size (arrays_at h (Some pdf)) & n <= size (arrays_at h xpdf)]) ->
  let calls := panel_calls ext percentile nrows ncolumns
                 (matrix_at h posterior).2
                 (thin thinning (matrix_at h posterior).2)
                 (arrays_at h (Some pdf)) (arrays_at h xpdf) in
  (x <~ for_acc (iota 0 n) m (histogram_panel ext posterior pdf xpdf thinning
                                 percentile nrows ncolumns) ;; k x) (Mem h f)
  = k (loop_max ext f m [seq calls i | i <- iota 0 n])
      (Mem h (f ++ flatten [seq calls i | i <- iota 0 n])).
Proof.
rw /has_matrix /matrix_at => /andP [Hl Hm] Hthin Hp /=.
case Ep : (nth _ h posterior) Hm => [| | |npars rows|] // _.
apply: (histogram_loopE _ _ _ Hl Ep Hthin) => //.
- move=> pct; move: Hp; rw pct /= => /and4P [/andP [Hl' HP] _ _ _].
  by split=> //; case: (nth _ h pdf) HP.
- move=> pct; move: Hp; rw pct /= => /and4P [_ + _ _].
  case: xpdf => [l|] //= /andP [Hl' HX]; exists l => //.
  by split=> //; case: (nth _ h l) HX.
- move=> pct i; rw mem_iota add0n /= => Hi.
  move: Hp; rw pct /= => /and4P [_ _ HP HX].
  by split; apply: leq_trans Hi _.
Qed.

(** The loop of lines 318-320. *)
Lemma histogram_ylimsE B (k : unit -> M B) nrows ncolumns m idx h f :
  (x <~ for_ idx (fun i => emit (subplot nrows ncolumns (Z.of_nat i + 1)) ;;
                           emit (ylim 0 m)) ;; k x) (Mem h f)
  = k tt (Mem h (f ++ flatten [seq [:: subplot nrows ncolumns (Z.of_nat i + 1);
                                      ylim 0 m] | i <- idx])).
Proof.
rw {1}/bind (for_emitE (c := fun i => [:: subplot nrows ncolumns
                                         (Z.of_nat i + 1); ylim 0 m])) //.
by move=> i g; rw /bind /= /emit /= -!cats1 -catA.
Qed.

(** What [histogram] does, for a call that reaches its end. *)
Lemma histogram_run ext posterior pdf xpdf npars rows thinning percentile
    fignum savefile :
  as_matrix posterior = Some (npars, rows) -> thinning <> 0%Z ->
  pdf_ok npars (isSome percentile) pdf xpdf ->
  let args0 := [:: posterior] in
  let args1 := with_opt args0 pdf in
  returns (run (histogram ext 0 thinning fignum savefile percentile
                          (opt_loc args0 pdf) (opt_loc args1 xpdf))
               (with_opt args1 xpdf))
          tt
          (histogram_figure ext npars rows thinning percentile
             (pdf_list npars pdf) (xpdf_list npars pdf xpdf) fignum savefile).
Proof.
move=> Hm Hthin.
case: posterior Hm => [v|v| |n r|] // [<- <-] {npars rows} Hok.
all: cbv zeta; rw /run /histogram /expand_dims.
all: case: pdf Hok => [[a|a|a|k a|P]|] //=.
all: case: xpdf => [[b|b|b|k' b|X]|] //=.
all: rw ?andbF ?andbT ?orbF // => Hok.
all: rw /pdf_lists /wrap_array; mrun.
all: rw histogram_panelsE //; last first.
all: try by rw /= ?size_nseq ?leqnn ?andbT //; case: (percentile) Hok => //= _;
            rw ?orbF //; first [case/andP=> -> -> | move=> ->].
all: rw histogram_ylimsE saveE /histogram_figure; split=> //.
all: by rw /= -?catA ?cats0.
Qed.

(** The [where] mask of lines 312-313 selects the points at or above the
    threshold. *)
Lemma mask_threshold (m : Q) (PDF Xpdf : seq Q) :
  mask [seq Qle_bool m d | d <- PDF] Xpdf
  = [seq xd.1 | xd <- zip Xpdf PDF & Qle_bool m xd.2].
Proof.
elim: PDF Xpdf => [|d PDF IH] [|x Xpdf] //=.
by rw IH; case: (Qle_bool m d).
Qed.

Section HistogramFigure.

Variables (ext : externals) (npars : nat) (rows : seq (seq Q)).
Variables (thinning : Z) (percentile : option Q) (P X : seq (option (seq Q))).
Variables (fignum : Z) (savefile : option string).

Local Abbreviation nrows := (nrows_of (Z.of_nat npars)).
Local Abbreviation ncolumns := (ncolumns_of (Z.of_nat npars)).
Local Abbreviation panel :=
  (panel_calls ext percentile nrows ncolumns rows (thin thinning rows) P X).
Local Abbreviation figure_ :=
  (histogram_figure ext npars rows thinning percentile P X fignum savefile).

(** A selection of the calls of the figure, panel by panel: [a] keeps
    none of the calls outside the first loop. *)
Lemma filter_histogram_figure (a : pred call) :
  ~~ a clf -> (forall n w h, ~~ a (figure n w h)) ->
  (forall lo hi, ~~ a (ylim lo hi)) -> (forall f, ~~ a (savefig f)) ->
  (forall r c i, ~~ a (subplot r c i)) ->
  [seq c <- figure_ | a c]
  = flatten [seq [seq c <- panel i | a c] | i <- iota 0 npars].
Proof.
move=> Hclf Hfig Hylim Hsave Hsub; rw /histogram_figure; cbv zeta.
move: (Z.min _ _) (loop_max _ _ _ _) => height maxylim.
rw !filter_cat /= (negbTE Hclf) (negbTE (Hfig _ _ _)) /=.
have -> : [seq c <- saved savefile | a c] = [::].
  by case: savefile => //= f; rw (negbTE (Hsave f)).
rw cats0 filter_flatten -!map_comp.
set ylims := filter a _; suff -> : ylims = [::] by rw cats0.
rw /ylims; elim: (iota 0 npars) => // i s IH.
by rw map_cons flatten_cons filter_cat IH /= (negbTE (Hsub _ _ _))
      (negbTE (Hylim _ _)).
Qed.

End HistogramFigure.



Lemma map_const_iota A (x : A) m n : [seq x | _ <- iota m n] = nseq n x.
Proof. by elim: n m => // n IH m; rw /iota -/(iota _ _) map_cons IH. Qed.

(** The layout rule of lines 273-284, case by case. *)
Lemma layout_columns (n : nat) :
  0 < n ->
  ncolumns_of (Z.of_nat n)
  = Z.of_nat (if n <= 3 then n else if n == 4 then 2 else if n <= 9 then 3 else 4).
Proof.
do 10 (case: n => [|n] //); move=> _.
rw /ncolumns_of; case: Z.gtb_spec => //; lia.
Qed.

Lemma layout_fits (n : nat) :
  (Z.of_nat n <= nrows_of (Z.of_nat n) * ncolumns_of (Z.of_nat n))%Z.
Proof.
do 10 (case: n => [|n] //).
rw /ncolumns_of /nrows_of; case: Z.gtb_spec; last by lia.
case: Z.ltb_spec; first by lia.
move=> _ _; move: (Z.of_nat _) => z.
have := Z.div_mod (z - 1) 4 ltac:(lia).
have := Z.mod_pos_bound (z - 1) 4 ltac:(lia).
lia.
Qed.

Lemma subplots_histogram_figure ext npars rows thinning percentile P X
    fignum savefile :
  let grid i := subplot (nrows_of (Z.of_nat npars)) (ncolumns_of (Z.of_nat npars))
                        (Z.of_nat i + 1) in
  [seq c <- histogram_figure ext npars rows thinning percentile P X fignum
                             savefile | is_subplot c]
  = [seq grid i | i <- iota 0 npars] ++ [seq grid i | i <- iota 0 npars].
Proof.
rw /histogram_figure; cbv zeta.
move: (Z.min _ _) (loop_max _ _ _ _) => height maxylim.
rw !filter_cat /=.
have -> : [seq c <- saved savefile | is_subplot c] = [::] by case: savefile.
rw cats0; congr (_ ++ _); elim: (iota 0 npars) => // i s IH.
- rw !map_cons flatten_cons filter_cat IH /panel_calls /=; congr (_ :: _).
  case: (percentile) => [pct|] //=; rw /hpd_calls.
  by case: credregion => [[PDF Xpdf] HPDmin].
- by rw !map_cons flatten_cons filter_cat IH.
Qed.


(** * pairwise *)

Lemma for_acc_cat A B (s1 s2 : seq A) (acc : B) body s :
  for_acc (s1 ++ s2) acc body s
  = (acc' <~ for_acc s1 acc body ;; for_acc s2 acc' body) s.
Proof.
elim: s1 acc s => [|x s1 IH] acc s //.
rw cat_cons !for_acc_cons bindA /bind.
by case: (body acc x s) => s' [a|e] //; rw IH.
Qed.

Lemma for_acc_map A1 A2 B (f : A1 -> A2) (xs : seq A1) (acc : B) body s :
  for_acc [seq f x | x <- xs] acc body s
  = for_acc xs acc (fun acc x => body acc (f x)) s.
Proof.
elim: xs acc s => [|x xs IH] acc s //.
by rw map_cons !for_acc_cons /bind; case: (body _ _ _) => s' [a|e].
Qed.

(** Two nested loops visit the pairs of their ranges in order. *)
Lemma for_acc_allpairs A1 A2 B (xs : seq A1) (ys : seq A2) (acc : B)
    (body : A1 -> B -> A2 -> M B) s :
  for_acc xs acc (fun acc x => for_acc ys acc (body x)) s
  = for_acc [seq (x, y) | x <- xs, y <- ys] acc
            (fun acc xy => body xy.1 acc xy.2) s.
Proof.
elim: xs acc s => [|x xs IH] acc s //.
rw for_acc_cons allpairs_cons for_acc_cat /bind.
rw for_acc_map /=.
by case: (for_acc ys acc _ s) => s' [a|e].
Qed.

Lemma linspaceE (a b : Q) (num : Z) :
  (0 <= num)%Z -> linspace a b num = Ok (linspace_nat a b (Z.to_nat num)).
Proof.
move=> Hn; rw /linspace_nat Z2Nat.id // /linspace; case: Z.ltb_spec => [|_]; first by lia.
by case: (Z.to_nat num) => [|[|n]].
Qed.

Lemma np_histogram2dE (x y : seq Q) (bins : Z) :
  (0 < bins)%Z -> size x = size y ->
  np_histogram2d x y bins = Ok (histogram2d_n x y (Z.to_nat bins)).
Proof.
by move=> Hb E; rw /np_histogram2d E eqxx; case: Z.leb_spec => //; lia.
Qed.

Lemma size_column i (rows : seq (seq Q)) : size (column i rows) = size rows.
Proof. by rw /column size_map. Qed.

(** A histogram with at least one bin a side has a largest count. *)
Lemma amax_histogram2d (x y : seq Q) (n : nat) :
  0 < n -> amax (flatten (histogram2d_n x y n).1.1)
           = Ok (max_count (histogram2d_n x y n).1.1).
Proof.
move=> Hn; rw /max_count.
suff [v ->] : exists v, amax (flatten (histogram2d_n x y n).1.1) = Ok v by [].
apply: amax_ok; rw /histogram2d_n.
case: data_range => xlo xhi; case: data_range => ylo yhi /=.
by case: n Hn.
Qed.

Lemma first_item_linspace lo hi n :
  first_item (linspace_nat lo hi n.+1) = Ok (head 0%Q (linspace_nat lo hi n.+1)).
Proof.
by have := size_linspace_nat lo hi n.+1; case: linspace_nat.
Qed.

Lemma last_item_linspace lo hi n :
  last_item (linspace_nat lo hi n.+1) = Ok (last 0%Q (linspace_nat lo hi n.+1)).
Proof.
by have := size_linspace_nat lo hi n.+1; case: linspace_nat.
Qed.

Lemma foldl_gather_step rows nbins acc cs :
  foldl (gather_step rows nbins) acc cs
  = let ps := [seq ji <- cs | below_diagonal ji] in
    Gathered (g_hist acc ++ g_hist (gathered_of rows nbins ps [::]))
             (g_xran acc ++ g_xran (gathered_of rows nbins ps [::]))
             (g_yran acc ++ g_yran (gathered_of rows nbins ps [::]))
             (g_lmax acc ++ [seq panel_lmax rows nbins ji | ji <- ps]).
Proof.
elim: cs acc => [|ji cs IH] [hs xs ys ls] /=; first by rw !cats0.
rw IH /gather_step; case: (below_diagonal ji) => //=.
rw /panel_lmax; case: (pair_hist rows nbins ji) => [[hh x] y] /=.
by rw -!cats1 -!catA.
Qed.

Lemma drop_consP A (d : A) (s : seq A) k x s' :
  drop k s = x :: s' -> [/\ k < size s, nth d s k = x & drop k.+1 s = s'].
Proof.
move=> E; have Hk : k < size s.
  by rw ltnNge; apply/negP => /drop_oversize; rw E.
by move: E; rw (drop_nth d Hk) => -[-> ->].
Qed.

Lemma item_edges_x rows nbins ji :
  first_item (pair_hist rows nbins ji).1.2
  = Ok (head 0%Q (pair_hist rows nbins ji).1.2)
  /\ last_item (pair_hist rows nbins ji).1.2
     = Ok (last 0%Q (pair_hist rows nbins ji).1.2).
Proof.
rw /pair_hist /histogram2d_n.
case: data_range => xlo xhi; case: data_range => ylo yhi /=.
by rw first_item_linspace last_item_linspace.
Qed.

Lemma item_edges_y rows nbins ji :
  first_item (pair_hist rows nbins ji).2
  = Ok (head 0%Q (pair_hist rows nbins ji).2)
  /\ last_item (pair_hist rows nbins ji).2
     = Ok (last 0%Q (pair_hist rows nbins ji).2).
Proof.
rw /pair_hist /histogram2d_n.
case: data_range => xlo xhi; case: data_range => ylo yhi /=.
by rw first_item_linspace last_item_linspace.
Qed.

Section PairwiseRun.

Variables (h : seq obj) (posterior : loc) (npars : nat) (rows : seq (seq Q)).
Variables (thinning nbins nlevels : Z).

Hypothesis Hpost : posterior < size h.
Hypothesis Hrows : nth (Bools [::]) h posterior = Matrix npars rows.
Hypothesis Hthin : thinning <> 0%Z.
Hypothesis Hbins : (0 < nbins)%Z.
Hypothesis Hlevels : (0 <= nlevels)%Z.

Local Abbreviation t := (thin thinning rows).

Lemma gather_cellE acc j i f :
  gather_cell posterior thinning nbins j acc i (Mem h f)
  = (Mem h f, Ok (gather_step t nbins acc (j, i))).
Proof.
rw /gather_cell /gather_step /below_diagonal /=; case: (i < j) => //.
mrun; rw Hpost Hrows; mrun; rw thinE //; mrun.
rw np_histogram2dE ?size_column //; mrun; rw -/(pair_hist t nbins (j, i)).
have Hn : 0 < Z.to_nat nbins by apply/ltP; lia.
have := amax_histogram2d (column i t) (column j t) Hn.
rw -/(pair_hist t nbins (j, i)).
by case: (pair_hist t nbins (j, i)) => [[hh x] y] /= ->.
Qed.

Lemma gather_loopE B (k : gathered -> M B) cs acc f :
  (g <~ for_acc cs acc (fun acc ji => gather_cell posterior thinning nbins
                                        ji.1 acc ji.2) ;; k g) (Mem h f)
  = k (foldl (gather_step t nbins) acc cs) (Mem h f).
Proof.
elim: cs acc => [|[j i] cs IH] acc //.
by rw for_acc_cons bindA {1}/bind gather_cellE /= IH.
Qed.

Variables (ps : seq (nat * nat)) (g : gathered) (lmax_of : nat * nat -> Q).

Hypothesis Hg : g = gathered_of t nbins ps (g_lmax g).
Hypothesis Hlmax : forall k, k < size ps ->
  item (g_lmax g) k = Ok (lmax_of (nth (0, 0) ps k)).

Local Abbreviation calls := (contour_calls npars t nbins nlevels lmax_of).

Lemma draw_cellE j i hc k f :
  (below_diagonal (j, i) -> k < size ps /\ nth (0, 0) ps k = (j, i)) ->
  draw_cell npars nlevels g j (hc, k) i (Mem h f)
  = (Mem h (f ++ if below_diagonal (j, i) then calls hc (j, i) else [::]),
     Ok (hc.+1, k + below_diagonal (j, i))).
Proof.
rw /draw_cell /below_diagonal /=; case: (i < j) => [|_]; last first.
  by mrun; rw cats0 addn0.
move=> /(_ isT) [Hk Ek]; mrun.
rw Hg /= (item_nth [::]) ?size_map // (nth_map (0, 0)) // Ek; mrun.
rw Hlmax // Ek; mrun; rw linspaceE //; mrun.
rw (item_nth [::]) ?size_map // (nth_map (0, 0)) // Ek; mrun.
rw (item_nth [::]) ?size_map // (nth_map (0, 0)) // Ek; mrun.
have [-> ->] := item_edges_x t nbins (j, i); mrun.
have [-> ->] := item_edges_y t nbins (j, i); mrun.
rw /contour_calls /contour_levels addn1 -!cats1 -catA.
by case: (pair_hist t nbins (j, i)) => [[hh x] y].
Qed.

Lemma draw_loopE B (kont : nat * nat -> M B) cs hc k f :
  [seq ji <- cs | below_diagonal ji] = drop k ps ->
  (x <~ for_acc cs (hc, k) (fun hk ji => draw_cell npars nlevels g ji.1 hk ji.2) ;;
   kont x) (Mem h f)
  = kont (hc + size cs, k + size [seq ji <- cs | below_diagonal ji])
         (Mem h (f ++ flatten [seq calls x.1 x.2
                              | x <- numbered hc cs & below_diagonal x.2])).
Proof.
elim: cs hc k f => [|[j i] cs IH] hc k f Hcs.
  by rw /= !addn0 cats0.
have Hc : below_diagonal (j, i) -> k < size ps /\ nth (0, 0) ps k = (j, i).
  move=> Hb; move: Hcs; rw /= Hb => /esym /(drop_consP (0, 0)) [Hk Ek _].
  by split.
rw for_acc_cons bindA {1}/bind (draw_cellE _ _ Hc).
cbv beta iota; rw /numbered /= -/(numbered _ _).
move: Hcs; rw /=; case Hb : (below_diagonal (j, i)) => /= Hcs.
- have [_ _ Hd] := drop_consP (0, 0) (esym Hcs).
  by rw addn1 (IH _ _ _ (esym Hd)) catA !addSnnS.
- by rw addn0 cats0 (IH _ _ _ Hcs) addSnnS.
Qed.

End PairwiseRun.

Lemma bind_for_acc_allpairs A1 A2 B C (xs : seq A1) (ys : seq A2) (acc : B)
    (body : A1 -> B -> A2 -> M B) (k : B -> M C) s :
  (x <~ for_acc xs acc (fun acc x => for_acc ys acc (body x)) ;; k x) s
  = (x <~ for_acc [seq (x, y) | x <- xs, y <- ys] acc
            (fun acc xy => body xy.1 acc xy.2) ;; k x) s.
Proof. by rw /bind for_acc_allpairs. Qed.

(** Counting the panels. *)
Lemma size_row_below a m :
  a <= m -> size [seq ji <- [seq (a, i) | i <- iota 0 m] | below_diagonal ji] = a.
Proof.
move=> Ha; rw filter_map size_map size_filter -(subnKC Ha) iotaD count_cat add0n.
have -> : count (preim (pair a) below_diagonal) (iota 0 a) = a.
  rw -[RHS](size_iota 0 a); apply/eqP; rw -all_count; apply/allP => i.
  by rw mem_iota add0n.
suff -> : count (preim (pair a) below_diagonal) (iota a (m - a)) = 0.
  by rw addn0.
apply/eqP; rw -leqn0 leqNgt -has_count; apply/hasPn => i.
by rw mem_iota /= /below_diagonal /= -leqNgt => /andP [].
Qed.

Lemma size_rows_below a k m :
  a + k <= m.+1 ->
  size [seq ji <- [seq (j, i) | j <- iota a k, i <- iota 0 m] | below_diagonal ji]
  = sumn (iota a k).
Proof.
elim: k a => [|k IH] a Hk //.
have Ha : a <= m by rw -ltnS; apply: leq_trans Hk; rw addnS ltnS leq_addr.
rw -[iota a k.+1]/(a :: iota a.+1 k) allpairs_cons filter_cat size_cat.
by rw size_row_below // IH // addSnnS.
Qed.

Lemma double_sumn_iota m : (sumn (iota 1 m)).*2 = m * m.+1.
Proof.
elim: m => // m IH.
rw -{1}[m.+1]addn1 iotaD sumn_cat doubleD IH -[iota (1 + m) 1]/([:: 1 + m]).
by rw /sumn /= -!muln2 -!plusE -!multE; lia.
Qed.

Lemma size_pairs n : size (pairs n) = (n * (n - 1))./2.
Proof.
rw /pairs /cells size_rows_below //.
by rw -[LHS]doubleK double_sumn_iota mulnC subn1; case: n => [|n] /=; rw ?muln0.
Qed.

Lemma pairs_nonempty n : 1 < n -> 0 < size (pairs n).
Proof.
rw size_pairs half_gt0; case: n => [|[|n]] // _.
by rw subn1 /= mulSn addSn ltnS mulnS addSn addnS.
Qed.

Lemma global_lmaxE rows nbins npars :
  1 < npars ->
  amax [seq panel_lmax rows nbins ji | ji <- pairs npars]
  = Ok (global_lmax rows nbins npars).
Proof.
move=> /pairs_nonempty Hn; rw /global_lmax.
by have [v ->] := @amax_ok [seq panel_lmax rows nbins ji | ji <- pairs npars]
                    ltac:(by rw size_map).
Qed.

Lemma size_pairs_bound n : size (pairs n) <= n * (n + 1) * 2.
Proof.
rw size_pairs leq_half_double -muln2; apply/leP.
rw -!multE -!plusE -minusE; nia.
Qed.

(** What [pairwise] does for two parameters or more. *)
Lemma pairwise_run npars rows thinning fignum savefile nbins nlevels
    absolute_dens :
  1 < npars -> thinning <> 0%Z -> (0 < nbins)%Z -> (0 <= nlevels)%Z ->
  returns (run (pairwise 0 thinning fignum savefile nbins nlevels absolute_dens)
               [:: Matrix npars rows])
          tt
          (pairwise_figure npars rows thinning fignum savefile nbins nlevels
                           absolute_dens).
Proof.
move=> Hn Hthin Hbins Hlevels; rw /run /pairwise; mrun.
rw (gtn_eqF Hn) bind_for_acc_allpairs -/(cells npars).
rw (@gather_loopE [:: Matrix npars rows] 0 npars rows thinning nbins) //.
rw foldl_gather_step /= -/(pairs npars).
set t := thin thinning rows; set ps := pairs npars.
set lmax_of := lmax_rule t nbins npars absolute_dens.
have Hdraw (lm : seq Q) B (kont : nat * nat -> M B) f :
    (forall k, k < size ps -> item lm k = Ok (lmax_of (nth (0, 0) ps k))) ->
    (x <~ for_acc (iota 1 (npars - 1)) (1, 0)
            (fun hk j => for_acc (iota 0 (npars - 1)) hk
                           (draw_cell npars nlevels (gathered_of t nbins ps lm) j)) ;;
     kont x) (Mem [:: Matrix npars rows] f)
    = kont (1 + size (cells npars), 0 + size ps)
           (Mem [:: Matrix npars rows]
                (f ++ flatten [seq contour_calls npars t nbins nlevels lmax_of
                                     x.1 x.2
                              | x <- numbered 1 (cells npars)
                              & below_diagonal x.2])).
  move=> Hlm; rw bind_for_acc_allpairs -/(cells npars).
  by rw (@draw_loopE [:: Matrix npars rows] npars rows thinning nbins nlevels
           Hlevels ps (gathered_of t nbins ps lm) lmax_of erefl Hlm) ?drop0.
case: absolute_dens @lmax_of Hdraw => lmax_of Hdraw.
- have Hlm k : k < size ps ->
      item (nseq (npars * (npars + 1) * 2) (global_lmax t nbins npars)) k
      = Ok (lmax_of (nth (0, 0) ps k)).
    move=> Hk; have Hb := leq_trans Hk (size_pairs_bound npars).
    by rw (item_nth 0%Q) ?nth_nseq ?size_nseq // Hb.
  mrun; rw global_lmaxE //; mrun; rw (Hdraw _ _ _ _ Hlm).
  rw linspaceE //; mrun; rw saveE.
  by split=> //; rw /pairwise_figure /= -!cats1 -!catA.
- have Hlm k : k < size ps ->
      item [seq panel_lmax t nbins ji | ji <- ps] k
      = Ok (lmax_of (nth (0, 0) ps k)).
    by move=> Hk; rw (item_nth 0%Q) ?size_map // (nth_map (0, 0)).
  mrun; rw (Hdraw _ _ _ _ Hlm).
  rw linspaceE //; mrun; rw saveE.
  by split=> //; rw /pairwise_figure /= -!cats1 -!catA.
Qed.

Lemma numbered_below h cs :
  [seq x.2 | x <- numbered h cs & below_diagonal x.2]
  = [seq ji <- cs | below_diagonal ji].
Proof.
rw -{2}[cs](@unzip2_zip _ _ (iota h (size cs)) cs) ?size_iota //.
by rw /unzip2 filter_map.
Qed.

(** The [contourf] calls of the figure, one per panel, in order. *)
Lemma contourf_pairwise_figure A (proj : call -> A) npars rows thinning fignum
    savefile nbins nlevels absolute_dens :
  let t := thin thinning rows in
  [seq proj c | c <- pairwise_figure npars rows thinning fignum savefile nbins
                                     nlevels absolute_dens & is_contourf c]
  = [seq proj (contourf (transpose (pair_hist t nbins ji).1.1) 1
                 (contour_levels (lmax_rule t nbins npars absolute_dens ji)
                                 nlevels)
                 (head 0%Q (pair_hist t nbins ji).1.2,
                  last 0%Q (pair_hist t nbins ji).1.2,
                  head 0%Q (pair_hist t nbins ji).2,
                  last 0%Q (pair_hist t nbins ji).2))
    | ji <- pairs npars].
Proof.
rw /pairwise_figure /pairs -(numbered_below 1); cbv zeta.
rw !filter_cat /=.
have -> : [seq c <- saved savefile | is_contourf c] = [::] by case: savefile.
rw cats0; elim: [seq x <- numbered _ _ | _] => // x s IH.
rw !map_cons flatten_cons filter_cat map_cat IH /contour_calls.
by case: (pair_hist _ _ _) => [[hh xe] ye].
Qed.

Lemma mem_pairs npars j i : ((j, i) \in pairs npars) = (i < j < npars).
Proof.
case: npars => [|n]; first by rw /pairs /cells in_nil ltn0 andbF.
rw /pairs /cells subn1 [n.+1.-1]/= mem_filter /below_diagonal /=.
case Hij : (i < j) => //=; apply/allpairsP/idP => [[[j' i'] /= [Hj _ [-> _]]]|Hj].
  by move: Hj; rw mem_iota add1n => /andP [].
exists (j, i); split=> //=; rw mem_iota ?add1n ?add0n /=.
  by rw Hj andbT; apply: leq_ltn_trans Hij.
exact: leq_trans Hij Hj.
Qed.

Lemma uniq_pairs npars : uniq (pairs npars).
Proof.
rw /pairs filter_uniq //; apply: allpairs_uniq; rw ?iota_uniq //.
by move=> [j i] [j' i'].
Qed.


(** [np.linspace] with two samples or more: equal steps, then [stop]. *)
Lemma linspace_nat_steps (a b : Q) (n : nat) :
  linspace_nat a b n.+2
  = rcons [seq (a + of_nat i * ((b - a) / of_nat n.+1))%Q | i <- iota 0 n.+1] b.
Proof.
rw /linspace_nat /linspace; case: Z.ltb_spec => [|_]; first by lia.
by rw Nat2Z.id.
Qed.


(** * trace *)

Section Marking.

Lemma size_mark g idx : all (fun k => k < size g) idx -> size (mark g idx) = size g.
Proof.
rw /mark; elim: idx g => //= k idx IH g /andP [Hk Hidx].
have Es : size (set_nth false g k true) = size g.
  by rw size_set_nth; apply/maxn_idPr.
by rw IH Es.
Qed.

Lemma nth_mark g idx k :
  nth false (mark g idx) k = nth false g k || (k \in idx).
Proof.
rw /mark; elim: idx g => [|i idx IH] g /=; first by rw orbF.
rw IH nth_set_nth /= in_cons; case: eqP => [->|_] /=; first by rw orbT.
by [].
Qed.

Lemma set_trueE g idx :
  all (fun k => k < size g) idx -> set_true g idx = Ok (mark g idx).
Proof. by rw /set_true => ->. Qed.

End Marking.

Lemma where_eq_lt z c : all (fun k => k < size z) (where_eq z c).
Proof.
by apply/allP => k; rw /where_eq mem_filter mem_iota add0n => /andP [_ /andP []].
Qed.

Lemma slice_from_lt z burnin c :
  all (fun k => k < size z) (slice_from burnin (where_eq z c)).
Proof.
have H := where_eq_lt z c; rw /slice_from.
by case: (0 <=? burnin)%Z; apply/allP => k /mem_drop /(allP H).
Qed.

Lemma size_good_mask z burnin nchains : size (good_mask z burnin nchains) = size z.
Proof.
rw /good_mask; elim: (arange nchains) (nseq _ _) (size_nseq (size z) false)
  => //= c cs IH g Hg.
by rw IH // size_mark Hg // slice_from_lt.
Qed.

Lemma nth_good_mask z burnin nchains k :
  nth false (good_mask z burnin nchains) k
  = has (fun c => k \in slice_from burnin (where_eq z c)) (arange nchains).
Proof.
rw /good_mask.
have -> g cs :
    nth false (foldl (fun g c => mark g (slice_from burnin (where_eq z c))) g cs) k
    = nth false g k || has (fun c => k \in slice_from burnin (where_eq z c)) cs.
  elim: cs g => [|c cs IH] g /=; first by rw orbF.
  by rw IH nth_mark orbA.
by rw nth_nseq; case: ifP.
Qed.

(** The loop of lines 51-52, run on the store of a call. *)
Lemma mark_good_loopE B (kont : unit -> M B) (p : obj) z burnin cs g f :
  size g = size z ->
  (x <~ for_ cs (mark_good 1 2 burnin) ;; kont x)
    (Mem [:: p; Ints z; Bools g] f)
  = kont tt (Mem [:: p; Ints z;
                     Bools (foldl (fun g c => mark g (slice_from burnin (where_eq z c)))
                                  g cs)] f).
Proof.
elim: cs g => [|c cs IH] g Hg //.
rw for_cons bindA /mark_good /load_ints /load_bools; mrun.
rw set_trueE ?Hg ?slice_from_lt //; mrun.
by rw IH // size_mark ?Hg // slice_from_lt.
Qed.

(** Boolean-mask selection, by index. *)
Lemma mask_nth A (d : A) (m : seq bool) (s : seq A) :
  size m = size s ->
  mask m s = [seq nth d s k | k <- iota 0 (size s) & nth false m k].
Proof.
move=> Hm; rw -{1}[s](mkseq_nth d) /mkseq -map_mask; congr map.
by rw filter_mask -Hm -/(mkseq _ _) mkseq_nth.
Qed.

Lemma mask_zip A B (m : seq bool) (s : seq A) (t : seq B) :
  mask m (zip s t) = zip (mask m s) (mask m t).
Proof.
elim: m s t => [|b m IH] s t //.
case: s t => [|x s] [|y t] //=; last by rw IH; case: b.
- by case: b => //; case: (mask m t).
- by case: b => //; case: (mask m s).
Qed.

Lemma filter_mem_drop (b : nat) (s : seq nat) :
  uniq s -> [seq k <- s | k \in drop b s] = drop b s.
Proof.
move=> Hs; rw -[X in filter _ X](cat_take_drop b) filter_cat.
have -> : [seq k <- take b s | k \in drop b s] = [::].
  rw -(filter_pred0 (take b s)); apply: eq_in_filter => k Hk /=.
  move: Hs; rw -{1}[s](cat_take_drop b) cat_uniq => /and3P [_ /hasPn H _].
  by apply/negbTE/negP => Hd; move: (H k Hd); rw Hk.
by rw /=; apply/all_filterP/allP.
Qed.

Lemma amaxZ_ge z top : amaxZ z = Ok top -> all (fun c => (c <=? top)%Z) z.
Proof.
case: z => // x z [<-] /=.
have H y s : (y <=? foldl Z.max y s)%Z /\ all (fun c => (c <=? foldl Z.max y s)%Z) s.
  elim: s y => [|c s IH] y /=; first by split=> //; apply/Z.leb_spec0; lia.
  have [H1 H2] := IH (Z.max y c); split; last first.
    rw H2 andbT; apply/Z.leb_spec0; move/Z.leb_spec0: H1; lia.
  by apply/Z.leb_spec0; move/Z.leb_spec0: H1; lia.
by have [-> ->] := H x z.
Qed.

Section Selection.

Variables (z : seq Z) (rows : seq (seq Q)) (burnin : Z).

Hypothesis Hsize : size rows = size z.
Hypothesis Hchains : all (fun c => (0 <=? c)%Z) z.
Hypothesis Hburnin : (0 <= burnin)%Z.

Local Abbreviation good := (good_mask z burnin (nchains_of z)).
Local Abbreviation d0 := (0%Z, [::] : seq Q).

(** A sample of chain [c] is kept when it is not among the first [burnin]
    samples of its chain. *)
Lemma good_of_chain c k :
  k \in where_eq z c ->
  nth false good k = (k \in drop (Z.to_nat burnin) (where_eq z c)).
Proof.
rw /where_eq mem_filter mem_iota add0n /= => /andP [/Z.eqb_spec Ec Hk].
rw nth_good_mask /slice_from; move/Z.leb_spec0: (Hburnin) => ->.
apply/hasP/idP => [[c' _ Hd]|Hd].
  move: (mem_drop Hd); rw /where_eq mem_filter => /andP [/Z.eqb_spec Ec' _].
  by move: Hd; rw -Ec' Ec.
exists c => //; rw /nchains_of /arange.
case Ez : (amaxZ z) => [top|e]; last by case: (z) Ez Hk.
have /allP /(_ c) := amaxZ_ge Ez.
have /allP /(_ c) := Hchains.
have Hin : c \in z by rw -Ec; apply: mem_nth.
move=> /(_ Hin) /Z.leb_spec0 H0 /(_ Hin) /Z.leb_spec0 Htop.
apply/mapP; exists (Z.to_nat c); last by rw Z2Nat.id.
by rw mem_iota add0n /=; apply/ltP; lia.
Qed.

(** Chain by chain, the kept samples are the samples of the chain without
    its first [burnin]. *)
Lemma kept_chain c :
  [seq s <- zip (kept z burnin z) (kept z burnin rows) | (s.1 =? c)%Z]
  = drop (Z.to_nat burnin) [seq s <- zip z rows | (s.1 =? c)%Z].
Proof.
have Hz : size (zip z rows) = size z by rw size_zip Hsize minnn.
have Hnth k : (nth d0 (zip z rows) k).1 = nth 0%Z z k by rw nth_zip.
have Hall (idx : seq nat) :
    [seq s <- [seq nth d0 (zip z rows) k | k <- idx] | (s.1 =? c)%Z]
    = [seq nth d0 (zip z rows) k | k <- idx & (nth 0%Z z k =? c)%Z].
  by rw filter_map; congr map; apply: eq_filter => k /=; rw Hnth.
rw /kept -mask_zip (mask_nth d0) ?size_good_mask ?Hz // Hall -filter_predI.
rw -{2}[zip z rows](mkseq_nth d0) /mkseq Hall Hz -/(where_eq z c) -map_drop.
have Hu : uniq (where_eq z c) by rw /where_eq filter_uniq ?iota_uniq.
congr map; rw -[RHS](filter_mem_drop _ Hu).
rw {2}/where_eq -filter_predI; apply: eq_in_filter => k Hk /=.
case Ek : (nth 0%Z z k =? c)%Z; rw ?andbF //=.
by rw andbT; apply: good_of_chain; rw /where_eq mem_filter Ek.
Qed.

End Selection.

Lemma chain_le_total : total chain_le.
Proof.
move=> x y; rw /chain_le; apply/orP.
by case: (Z.leb_spec x.1 y.1); [left | right; apply/Z.leb_spec0; lia].
Qed.

Lemma chain_le_trans : transitive chain_le.
Proof.
move=> y x t; rw /chain_le => /Z.leb_spec0 Hxy /Z.leb_spec0 Hyt.
by apply/Z.leb_spec0; lia.
Qed.

Lemma sorted_same_chain c (s : seq (Z * seq Q)) :
  all (fun x => (x.1 =? c)%Z) s -> sorted chain_le s.
Proof.
case: s => // x s /= /andP [Hx]; elim: s x Hx => //= y s IH x.
move=> /Z.eqb_spec Hx /andP [/Z.eqb_spec Hy Hs].
rw {1}/chain_le Hx Hy Z.leb_refl /=; apply: IH => //.
by rw Hy Z.eqb_refl.
Qed.

Section Sorting.

Variables (z1 : seq Z) (p1 : seq (seq Q)).
Hypothesis Hsize : size p1 = size z1.

Local Abbreviation d0 := (0%Z, [::] : seq Q).

(** Indexing both arrays with [np.lexsort]'s indices is a stable merge
    sort of the samples by chain id. *)
Lemma lexsort_zip :
  zip [seq nth 0%Z z1 k | k <- lexsort z1] [seq nth [::] p1 k | k <- lexsort z1]
  = sort chain_le (zip z1 p1).
Proof.
have Hz : size (zip z1 p1) = size z1 by rw size_zip Hsize minnn.
rw -[X in sort _ X](mkseq_nth d0) /mkseq Hz zip_map.
rw -(@map_sort _ _ (nth d0 (zip z1 p1))
       (fun i j => (nth 0%Z z1 i <=? nth 0%Z z1 j)%Z)).
  by move=> i j; rw /chain_le !nth_zip.
by apply: eq_map => k; rw nth_zip.
Qed.

End Sorting.

Lemma getitem_maskE A (a : seq A) (m : seq bool) :
  size m = size a -> getitem_mask a m = Ok (mask m a).
Proof. by rw /getitem_mask => ->; rw eqxx. Qed.

Lemma getitem_idxE A (d : A) (a : seq A) (idx : seq nat) :
  all (fun k => k < size a) idx ->
  getitem_idx d a idx = Ok [seq nth d a k | k <- idx].
Proof. by rw /getitem_idx => ->. Qed.

Lemma lexsort_lt z : all (fun k => k < size z) (lexsort z).
Proof.
by rw /lexsort all_sort; apply/allP => k; rw mem_iota add0n.
Qed.

Lemma size_kept A z burnin (a : seq A) :
  size a = size z ->
  size (kept z burnin a) = count id (good_mask z burnin (nchains_of z)).
Proof. by move=> Ha; rw /kept size_mask // size_good_mask. Qed.

(** The separators of line 61 are where the chain id changes. *)
Lemma where_nz_ediff1d z : where_nz (ediff1d z) = changes z.
Proof.
rw /where_nz /changes; case: z => // x z.
rw /ediff1d size_pairmap /=; apply: eq_in_filter => k.
rw mem_iota add0n /= => Hk; rw (nth_pairmap 0%Z) //; congr (~~ _).
by apply/Z.eqb_spec/Z.eqb_spec => H; lia.
Qed.

Section TraceLoop.

Variables (ext : externals) (h : seq obj) (posterior : loc).
Variables (npars : nat) (rows : seq (seq Q)) (thinning : Z).
Variables (chains : bool) (xsep : seq nat) (xmax : nat).

Hypothesis Hpost : posterior < size h.
Hypothesis Hrows : nth (Bools [::]) h posterior = Matrix npars rows.
Hypothesis Hthin : thinning <> 0%Z.

Lemma trace_panelE i f :
  trace_panel ext posterior chains xsep thinning npars xmax i (Mem h f)
  = (Mem h (f ++ trace_panel_calls ext chains xsep npars xmax
                   (thin thinning rows) f i), Ok tt).
Proof.
rw /trace_panel /trace_panel_calls; mrun; rw Hpost Hrows; mrun.
rw thinE //; mrun.
by case: (chains); mrun; rw /emit /= -!cats1 -!catA.
Qed.

Lemma trace_loopE B (kont : unit -> M B) idx f :
  (x <~ for_ idx (trace_panel ext posterior chains xsep thinning npars xmax) ;;
   kont x) (Mem h f)
  = kont tt (Mem h (trace_panels ext chains xsep npars xmax
                      (thin thinning rows) f idx)).
Proof.
elim: idx f => [|i idx IH] f //.
by rw for_cons bindA {1}/bind trace_panelE /= IH.
Qed.

End TraceLoop.

Lemma plots_trace_panels ext chains xsep npars xmax rows f idx :
  [seq plotted c | c <- trace_panels ext chains xsep npars xmax rows f idx
                 & is_plot c]
  = [seq plotted c | c <- f & is_plot c] ++ [seq column i rows | i <- idx].
Proof.
rw /trace_panels; elim: idx f => [|i idx IH] f /=; first by rw cats0.
rw IH /trace_panel_calls !filter_cat !map_cat /= -!catA; congr (_ ++ _).
by case: (chains).
Qed.

Lemma vlines_trace_panels ext xsep npars xmax rows f idx :
  [seq vlines_at c | c <- trace_panels ext true xsep npars xmax rows f idx
                   & is_vlines c]
  = [seq vlines_at c | c <- f & is_vlines c]
    ++ [seq [seq of_nat k | k <- xsep] | _ <- idx].
Proof.
rw /trace_panels; elim: idx f => [|i idx IH] f /=; first by rw cats0.
by rw IH /trace_panel_calls !filter_cat !map_cat /= -!catA.
Qed.

(** What [trace] does when the chain indices are given. *)
Lemma trace_chains_run ext npars rows z thinning burnin fignum savefile :
  0 < size z -> size rows = size z -> thinning <> 0%Z ->
  let zs := by_chain 0%Z z burnin z in
  let ps := by_chain [::] z burnin rows in
  returns (run (trace ext 0 (Some 1) thinning burnin fignum savefile)
               [:: Matrix npars rows; Ints z])
          tt
          (trace_figure ext npars ps true (changes (thin thinning zs))
                        thinning fignum savefile).
Proof.
move=> Hz Hsize Hthin; cbv zeta; rw /run /trace /trace_chains /load_ints.
mrun; have [top Etop] : exists top, amaxZ z = Ok top.
  by case: (z) Hz => // x s _; eexists.
rw Etop; mrun; rw !bindA mark_good_loopE ?size_nseq // /load_bools /load_ints.
rw -/(good_mask z burnin (top + 1)).
have -> : (top + 1)%Z = nchains_of z by rw /nchains_of Etop.
mrun; rw getitem_maskE ?size_good_mask //; mrun.
rw getitem_maskE ?size_good_mask //; mrun.
rw -/(kept z burnin rows) -/(kept z burnin z).
have Hk : size (kept z burnin rows) = size (kept z burnin z).
  by rw !size_kept.
rw getitem_idxE ?Hk ?lexsort_lt //; mrun.
rw getitem_idxE ?lexsort_lt //; mrun.
rw -/(by_chain [::] z burnin rows) -/(by_chain 0%Z z burnin z).
rw thinE //; mrun; rw thinE //; mrun.
rw (@trace_loopE ext _ 5 npars (by_chain [::] z burnin rows) thinning) //.
by rw saveE where_nz_ediff1d.
Qed.


(** ** The store of the caller is left alone *)

Section Frame.

Variable n : nat.

Lemma frame_ret A (a : A) : frame n (ret a).
Proof. by []. Qed.

Lemma frame_raise A e : frame n (@raise A e).
Proof. by []. Qed.

Lemma frame_lift A (r : res A) : frame n (lift r).
Proof. by []. Qed.

Lemma frame_emit c : frame n (emit c).
Proof. by []. Qed.

Lemma frame_drawn : frame n drawn.
Proof. by []. Qed.

Lemma frame_load l : frame n (load l).
Proof. by move=> s Hs; rw /load; case: ifP. Qed.

Lemma frame_alloc o : frame n (alloc o).
Proof.
move=> s Hs; rw /alloc /= size_rcons -cats1 takel_cat //.
by split=> //; apply: leqW.
Qed.

(** Overwriting an object the routine itself made. *)
Lemma frame_store l o : n <= l -> frame n (store l o).
Proof.
move=> Hl s Hs; rw /store; case: ifP => //= Hlt.
rw size_set_nth; split; first by rw leq_max Hs orbT.
by rw set_nthE Hlt takel_cat ?take_takel // size_takel // ltnW.
Qed.

Lemma frame_bind A B (m : M A) (f : A -> M B) :
  frame n m -> (forall a, frame n (f a)) -> frame n (bind m f).
Proof.
move=> Hm Hf s Hs; rw /bind; case: (Hm s Hs); case: (m s) => s' [a|e] //= Hs' Es'.
by case: (Hf a s' Hs') => H1 ->.
Qed.

(** What [alloc] returns is not one of the first [n] locations. *)
Lemma frame_bind_alloc B o (f : loc -> M B) :
  (forall l, n <= l -> frame n (f l)) -> frame n (bind (alloc o) f).
Proof.
move=> Hf s Hs; rw /bind; case: (frame_alloc o Hs) => /= H1 H2.
by case: (Hf (size (heap s)) Hs (Mem (rcons (heap s) o) (fig s)) H1) => H3 ->.
Qed.

Lemma frame_for A (xs : seq A) (body : A -> M unit) :
  (forall x, frame n (body x)) -> frame n (for_ xs body).
Proof.
move=> Hb; elim: xs => [|x xs IH]; first exact: frame_ret.
by rw for_cons; apply: frame_bind.
Qed.

Lemma frame_for_acc A B (xs : seq A) (acc : B) (body : B -> A -> M B) :
  (forall acc x, frame n (body acc x)) -> frame n (for_acc xs acc body).
Proof.
move=> Hb; elim: xs acc => [|x xs IH] acc; first exact: frame_ret.
by rw for_acc_cons; apply: frame_bind.
Qed.

End Frame.

(** One step through the text of a routine. *)
Ltac frame_step :=
  first [ apply: frame_ret | apply: frame_raise | apply: frame_lift
        | apply: frame_emit | apply: frame_drawn | apply: frame_load
        | apply: frame_alloc
        | apply: frame_store; assumption
        | apply: frame_bind_alloc; intros
        | apply: frame_bind; [| intros]
        | apply: frame_for; intros
        | apply: frame_for_acc; intros
        | match goal with
          | |- frame _ (if ?b then _ else _) => case: b
          | |- frame _ (match ?x with _ => _ end) => destruct x
          end ].

Ltac frame_run := repeat frame_step.

Section FrameRenderers.

Variables (ext : externals) (n : nat).

Lemma frame_trace posterior Zchain thinning burnin fignum savefile :
  frame n (trace ext posterior Zchain thinning burnin fignum savefile).
Proof.
rw /trace /trace_chains /trace_panel /mark_good /save /load_ints /load_bools.
by frame_run.
Qed.

Lemma frame_pairwise posterior thinning fignum savefile nbins nlevels dens :
  frame n (pairwise posterior thinning fignum savefile nbins nlevels dens).
Proof.
by rw /pairwise /gather_cell /draw_cell /save; frame_run.
Qed.

Lemma frame_histogram posterior thinning fignum savefile percentile pdf xpdf :
  frame n (histogram ext posterior thinning fignum savefile percentile pdf xpdf).
Proof.
rw /histogram /expand_dims /pdf_lists /histogram_panel /hpd_region /list_item
   /wrap_array /save.
by frame_run.
Qed.

Lemma frame_RMS binsz rms stderr rmslo rmshi cadence binstep timepoints ratio
    fignum yran xran savefile :
  frame n (RMS binsz rms stderr rmslo rmshi cadence binstep timepoints ratio
               fignum yran xran savefile).
Proof.
rw /RMS /default_yran /default_xran /setitem /range_at /reduce2 /stepped2
   /save /load_floats.
by frame_run.
Qed.

Lemma frame_modelfit data uncert indparams model nbins fignum savefile :
  frame n (modelfit ext data uncert indparams model nbins fignum savefile).
Proof. by rw /modelfit /save /load_floats; frame_run. Qed.

End FrameRenderers.

(** C9: whatever the arguments, and whether the routine returns or
    raises, each of the five routines leaves every object that was in the
    store when it was called as it was: the arrays of the caller
    ([posterior], [Zchain], [binsz], [rms], [stderr], [rmslo], [rmshi],
    [data], [uncert], [indparams], [model], [pdf], [xpdf], [yran], [xran],
    [timepoints]) are among them.  What the routines overwrite ([good] in
    [trace], the default [yran] in [RMS]) they have made themselves. *)
Theorem renderers_leave_inputs ext (s : mem) :
  let unchanged A (m : M A) :=
    take (size (heap s)) (heap (m s).1) = heap s in
  [/\ forall posterior Zchain thinning burnin fignum savefile,
        unchanged _ (trace ext posterior Zchain thinning burnin fignum savefile),
      forall posterior thinning fignum savefile nbins nlevels absolute_dens,
        unchanged _ (pairwise posterior thinning fignum savefile nbins nlevels
                              absolute_dens),
      forall posterior thinning fignum savefile percentile pdf xpdf,
        unchanged _ (histogram ext posterior thinning fignum savefile
                               percentile pdf xpdf),
      forall binsz rms stderr rmslo rmshi cadence binstep timepoints ratio
             fignum yran xran savefile,
        unchanged _ (RMS binsz rms stderr rmslo rmshi cadence binstep
                         timepoints ratio fignum yran xran savefile)
    & forall data uncert indparams model nbins fignum savefile,
        unchanged _ (modelfit ext data uncert indparams model nbins fignum
                              savefile)].
Proof.
have H A (m : M A) : frame (size (heap s)) m ->
    take (size (heap s)) (heap (m s).1) = heap s.
  by move=> Hm; case: (Hm s (leqnn _)) => _ ->; rw take_size.
split=> *; apply: H.
- exact: frame_trace.
- exact: frame_pairwise.
- exact: frame_histogram.
- exact: frame_RMS.
- exact: frame_modelfit.
Qed.

(** ** The theorems on sample inputs *)

(** C6 on five data points and two bins: the bin size is 3. *)
Lemma modelfit_binsize_witness :
  [/\ 0 < size sample6, (1 <= 2)%Z
    & [/\ binsize_of 6 2 = Ok 3%Z,
          take 2 (fig (run (modelfit example_ext 0 1 2 3 2 (-22) None)
                           [:: Floats sample6; Floats sample6; Floats sample6;
                               Floats sample6]).1)
          = [:: binarray_call sample6 sample6 sample6 3;
                weightedbin_call sample6 3]
        & 3%Z = ceil_ratio 6 2]].
Proof.
split; [reflexivity | lia |].
apply: (@modelfit_binsize example_ext sample6 sample6 sample6 sample6 2 (-22)
          None); [reflexivity | lia].
Defined.

(** C8 on the call [RMS(binsz=[1], rms=[5], ...)]. *)
Lemma RMS_single_point_noop_witness :
  [/\ load 1 single_point = (single_point, Ok (Floats [:: 5%Q])),
      size [:: 5%Q] <= 1
    & RMS 0 1 2 3 4 None 1 None false (-20) None None None single_point
      = (single_point, Ok tt)].
Proof.
split; [reflexivity | reflexivity |].
apply: (@RMS_single_point_noop single_point 0 1 2 3 4 None 1 None false (-20)
          None None None [:: 5%Q]); reflexivity.
Defined.










(** ** What the routines add to the figure *)

Section Adds.

Variable p : pred call.

Lemma only_ret A (a : A) : only p (ret a).
Proof. by move=> s; exists [::]; rw ?cats0. Qed.

Lemma only_raise A e : only p (@raise A e).
Proof. by move=> s; exists [::]; rw ?cats0. Qed.

Lemma only_lift A (r : res A) : only p (lift r).
Proof. by move=> s; exists [::]; rw ?cats0. Qed.

Lemma only_drawn : only p drawn.
Proof. by move=> s; exists [::]; rw ?cats0. Qed.

Lemma only_load l : only p (load l).
Proof. by move=> s; exists [::]; rw ?cats0 // /load; case: ifP. Qed.

Lemma only_alloc o : only p (alloc o).
Proof. by move=> s; exists [::]; rw ?cats0. Qed.

Lemma only_store l o : only p (store l o).
Proof. by move=> s; exists [::]; rw ?cats0 // /store; case: ifP. Qed.

Lemma only_emit c : p c -> only p (emit c).
Proof. by move=> Hc s; exists [:: c]; rw /= ?cats1 ?Hc. Qed.

Lemma only_bind A B (m : M A) (f : A -> M B) :
  only p m -> (forall a, only p (f a)) -> only p (bind m f).
Proof.
move=> Hm Hf s; rw /bind; case: (Hm s); case: (m s) => s' [a|e] /= cs Es' Hcs.
  case: (Hf a s') => cs' -> Hcs'; exists (cs ++ cs'); first by rw Es' catA.
  by rw all_cat Hcs.
by exists cs.
Qed.

Lemma only_for A (xs : seq A) (body : A -> M unit) :
  (forall x, only p (body x)) -> only p (for_ xs body).
Proof.
move=> Hb; elim: xs => [|x xs IH]; first exact: only_ret.
by rw for_cons; apply: only_bind.
Qed.

Lemma only_for_acc A B (xs : seq A) (acc : B) (body : B -> A -> M B) :
  (forall acc x, only p (body acc x)) -> only p (for_acc xs acc body).
Proof.
move=> Hb; elim: xs acc => [|x xs IH] acc; first exact: only_ret.
by rw for_acc_cons; apply: only_bind.
Qed.

End Adds.

(** One step through the text of a routine. *)
Ltac only_step :=
  lazymatch goal with
  | |- only _ (bind _ _) => apply: only_bind; [| intro]
  | |- only _ (ret _) => exact: only_ret
  | |- only _ (raise _) => exact: only_raise
  | |- only _ (lift _) => exact: only_lift
  | |- only _ drawn => exact: only_drawn
  | |- only _ (load _) => exact: only_load
  | |- only _ (alloc _) => exact: only_alloc
  | |- only _ (store _ _) => exact: only_store
  | |- only _ (emit _) => apply: only_emit; reflexivity
  | |- only _ (for_ _ _) => apply: only_for; intro
  | |- only _ (for_acc _ _ _) => apply: only_for_acc; intros
  | |- only _ (if ?b then _ else _) => case: b
  | |- only _ (match ?x with _ => _ end) =>
      first [progress cbv iota beta | destruct x]
  | |- only _ (let _ := _ in _) => cbv zeta
  end.

Ltac only_run := repeat only_step.

Ltac unfold_renderers :=
  rw /trace /trace_chains /trace_panel /mark_good /pairwise /gather_cell
          /draw_cell /histogram /expand_dims /pdf_lists /histogram_panel
          /hpd_region /list_item /wrap_array /RMS /default_yran /default_xran
          /setitem /range_at /reduce2 /stepped2 /modelfit /save /load_floats
          /load_ints /load_bools.

Section NothingSaved.

Variable ext : externals.

Lemma trace_saves_nothing posterior Zchain thinning burnin fignum :
  only not_savefig (trace ext posterior Zchain thinning burnin fignum None).
Proof. by unfold_renderers; only_run. Qed.

Lemma pairwise_saves_nothing posterior thinning fignum nbins nlevels dens :
  only not_savefig (pairwise posterior thinning fignum None nbins nlevels dens).
Proof. by unfold_renderers; only_run. Qed.

Lemma histogram_saves_nothing posterior thinning fignum percentile pdf xpdf :
  only not_savefig
       (histogram ext posterior thinning fignum None percentile pdf xpdf).
Proof. by unfold_renderers; only_run. Qed.

Lemma RMS_saves_nothing binsz rms stderr rmslo rmshi cadence binstep timepoints
    ratio fignum yran xran :
  only not_savefig (RMS binsz rms stderr rmslo rmshi cadence binstep timepoints
                        ratio fignum yran xran None).
Proof. by unfold_renderers; only_run. Qed.

Lemma modelfit_saves_nothing data uncert indparams model nbins fignum :
  only not_savefig (modelfit ext data uncert indparams model nbins fignum None).
Proof. by unfold_renderers; only_run. Qed.

End NothingSaved.

(** X1: with no [savefile], none of the five routines saves a figure,
    whatever its other arguments and the store, and whether it returns or
    raises: the figure only grows, and no [savefig] is among the calls
    added. *)
Theorem nothing_saved_without_savefile ext (s : mem) :
  let quiet A (m : M A) :=
    exists2 cs, fig (m s).1 = fig s ++ cs & ~~ has is_savefig cs in
  [/\ forall posterior Zchain thinning burnin fignum,
        quiet _ (trace ext posterior Zchain thinning burnin fignum None),
      forall posterior thinning fignum nbins nlevels absolute_dens,
        quiet _ (pairwise posterior thinning fignum None nbins nlevels
                          absolute_dens),
      forall posterior thinning fignum percentile pdf xpdf,
        quiet _ (histogram ext posterior thinning fignum None percentile pdf
                           xpdf),
      forall binsz rms stderr rmslo rmshi cadence binstep timepoints ratio
             fignum yran xran,
        quiet _ (RMS binsz rms stderr rmslo rmshi cadence binstep timepoints
                     ratio fignum yran xran None)
    & forall data uncert indparams model nbins fignum,
        quiet _ (modelfit ext data uncert indparams model nbins fignum None)].
Proof.
have H A (m : M A) : only not_savefig m ->
    exists2 cs, fig (m s).1 = fig s ++ cs & ~~ has is_savefig cs.
  by move=> Hm; case: (Hm s) => cs Es Hcs; exists cs => //; rw -all_predC.
split=> *; apply: H.
- exact: trace_saves_nothing.
- exact: pairwise_saves_nothing.
- exact: histogram_saves_nothing.
- exact: RMS_saves_nothing.
- exact: modelfit_saves_nothing.
Qed.

(** Without a percentile, whatever the other arguments. *)
Lemma histogram_plain ext posterior thinning fignum savefile pdf xpdf :
  only plain_histogram
       (histogram ext posterior thinning fignum savefile None pdf xpdf).
Proof. by unfold_renderers; only_run. Qed.

(** X2: without a percentile [histogram] never calls the credible-region
    collaborator and never shades, and every histogram it draws is drawn
    as bars, whatever its other arguments and whether it returns or
    raises. *)
Theorem histogram_without_percentile ext (s : mem) posterior thinning fignum
    savefile pdf xpdf :
  exists2 cs,
    fig (histogram ext posterior thinning fignum savefile None pdf xpdf s).1
    = fig s ++ cs
    & [/\ ~~ has is_credregion cs, ~~ has is_fill cs
        & all (fun c => if c is hist _ _ step then ~~ step else true) cs].
Proof.
case: (@histogram_plain ext posterior thinning fignum savefile pdf xpdf s).
move=> cs Es Hcs; exists cs => //; split.
- by rw -all_predC; apply: sub_all Hcs; case.
- by rw -all_predC; apply: sub_all Hcs; case.
- by apply: sub_all Hcs; case.
Qed.

(** *** Every drawing starts on a cleared figure *)

Lemma filter_silent cs : all silent cs -> [seq c <- cs | is_pyplot c] = [::].
Proof. by elim: cs => //= c cs IH /andP [/negbTE -> /IH]. Qed.

Section Opens.

Variable fignum : Z.

Lemma opens_silent A (m : M A) : only silent m -> adds (opens fignum) m.
Proof.
move=> Hm s; case: (Hm s) => cs Es Hcs; exists cs => //.
by rw /opens filter_silent.
Qed.

Lemma opens_bind A B (m : M A) (k : A -> M B) :
  only silent m -> (forall a, adds (opens fignum) (k a)) ->
  adds (opens fignum) (bind m k).
Proof.
move=> Hm Hk s; rw /bind; case: (Hm s); case: (m s) => s' [a|e] /= cs Es' Hcs.
  case: (Hk a s') => cs' -> Hcs'; exists (cs ++ cs'); first by rw Es' catA.
  by rw /opens filter_cat filter_silent.
by exists cs => //; rw /opens filter_silent.
Qed.

Lemma opens_figure B w h (rest : M B) :
  only predT rest ->
  adds (opens fignum) (emit (figure fignum w h) ;; emit clf ;; rest).
Proof.
move=> Hk s; rw /bind /=.
case: (Hk (Mem (heap s) (rcons (rcons (fig s) (figure fignum w h)) clf))).
move=> cs Es _; exists (figure fignum w h :: clf :: cs).
  by rw Es /= -!cats1 -!catA.
by rw /opens /= eqxx.
Qed.

End Opens.

Ltac opens_step :=
  lazymatch goal with
  | |- adds _ (bind (emit (figure _ _ _)) _) =>
      apply: opens_figure; only_run
  | |- adds _ (bind _ _) => apply: opens_bind; [only_run | intro]
  | |- adds _ (if ?b then _ else _) => case: b
  | |- adds _ (match ?x with _ => _ end) =>
      first [progress cbv iota beta | destruct x]
  | |- adds _ (let _ := _ in _) => cbv zeta
  | |- adds _ _ => apply: opens_silent; only_run
  end.

Ltac opens_run := repeat opens_step.

Section OpensRenderers.

Variable ext : externals.

Lemma trace_opens posterior Zchain thinning burnin fignum savefile :
  adds (opens fignum)
       (trace ext posterior Zchain thinning burnin fignum savefile).
Proof. by unfold_renderers; opens_run. Qed.

Lemma pairwise_opens posterior thinning fignum savefile nbins nlevels dens :
  adds (opens fignum)
       (pairwise posterior thinning fignum savefile nbins nlevels dens).
Proof. by unfold_renderers; opens_run. Qed.

Lemma histogram_opens posterior thinning fignum savefile percentile pdf xpdf :
  adds (opens fignum)
       (histogram ext posterior thinning fignum savefile percentile pdf xpdf).
Proof. by unfold_renderers; opens_run. Qed.

Lemma RMS_opens binsz rms stderr rmslo rmshi cadence binstep timepoints ratio
    fignum yran xran savefile :
  adds (opens fignum)
       (RMS binsz rms stderr rmslo rmshi cadence binstep timepoints ratio
            fignum yran xran savefile).
Proof. by unfold_renderers; opens_run. Qed.

Lemma modelfit_opens data uncert indparams model nbins fignum savefile :
  adds (opens fignum)
       (modelfit ext data uncert indparams model nbins fignum savefile).
Proof. by unfold_renderers; opens_run. Qed.

End OpensRenderers.

(** X3: whatever its arguments and the store, and whether it returns or
    raises, each of the five routines only appends to the figure, and the
    matplotlib calls it appends, if there are any, start with
    [figure(fignum)] followed by [clf()]: nothing is drawn before the
    figure of the caller is selected and cleared. *)
Theorem drawing_starts_cleared ext (s : mem) :
  let cleared fignum A (m : M A) :=
    exists2 cs, fig (m s).1 = fig s ++ cs & opens fignum cs in
  [/\ forall posterior Zchain thinning burnin fignum savefile,
        cleared fignum _
          (trace ext posterior Zchain thinning burnin fignum savefile),
      forall posterior thinning fignum savefile nbins nlevels absolute_dens,
        cleared fignum _
          (pairwise posterior thinning fignum savefile nbins nlevels
                    absolute_dens),
      forall posterior thinning fignum savefile percentile pdf xpdf,
        cleared fignum _
          (histogram ext posterior thinning fignum savefile percentile pdf
                     xpdf),
      forall binsz rms stderr rmslo rmshi cadence binstep timepoints ratio
             fignum yran xran savefile,
        cleared fignum _
          (RMS binsz rms stderr rmslo rmshi cadence binstep timepoints ratio
               fignum yran xran savefile)
    & forall data uncert indparams model nbins fignum savefile,
        cleared fignum _
          (modelfit ext data uncert indparams model nbins fignum savefile)].
Proof.
split=> *.
- exact: trace_opens.
- exact: pairwise_opens.
- exact: histogram_opens.
- exact: RMS_opens.
- exact: modelfit_opens.
Qed.

(** *** A call that returns has saved the figure *)

Section Saves.

Variable file : string.

Lemma saves_emit : adds_on_return (saves_last file) (emit (savefig file)).
Proof. by move=> s a _; exists [:: savefig file]; rw ?cats1 //; exists [::]. Qed.

Lemma saves_raise A e : adds_on_return (saves_last file) (@raise A e).
Proof. by []. Qed.

Lemma saves_bind A B (m : M A) (k : A -> M B) :
  only not_savefig m -> (forall a, adds_on_return (saves_last file) (k a)) ->
  adds_on_return (saves_last file) (bind m k).
Proof.
move=> Hm Hk s b; rw /bind; case: (Hm s); case: (m s) => s' [a|e] //= cs Es' Hcs.
move=> /Hk [cs' -> [before -> Hb]]; exists (cs ++ rcons before (savefig file)).
  by rw Es' catA.
by exists (cs ++ before); rw ?rcons_cat // has_cat negb_or Hb -all_predC Hcs.
Qed.

Lemma skips_ret A (a : A) : adds_on_return (skipped_or_saved file) (ret a).
Proof. by move=> s b _; exists [::]; rw ?cats0 //; left. Qed.

Lemma skips_bind A B (m : M A) (k : A -> M B) :
  only pred0 m -> (forall a, adds_on_return (skipped_or_saved file) (k a)) ->
  adds_on_return (skipped_or_saved file) (bind m k).
Proof.
move=> Hm Hk s b; rw /bind; case: (Hm s); case: (m s) => s' [a|e] //= cs Es'.
case: cs Es' => [|c cs] //; rw cats0 => Es' _ /Hk [cs' -> Hcs'].
by exists cs' => //; rw Es'.
Qed.

Lemma skips_saves A (m : M A) :
  adds_on_return (saves_last file) m -> adds_on_return (skipped_or_saved file) m.
Proof. by move=> Hm s a /Hm [cs Es Hcs]; exists cs => //; right. Qed.

End Saves.

Ltac saves_step :=
  lazymatch goal with
  | |- adds_on_return _ (bind _ _) => apply: saves_bind; [only_run | intro]
  | |- adds_on_return _ (emit (savefig _)) => exact: saves_emit
  | |- adds_on_return _ (raise _) => exact: saves_raise
  | |- adds_on_return _ (if ?b then _ else _) => case: b
  | |- adds_on_return _ (match ?x with _ => _ end) =>
      first [progress cbv iota beta | destruct x]
  | |- adds_on_return _ (let _ := _ in _) => cbv zeta
  end.

Ltac saves_run := repeat saves_step.

Ltac skips_step :=
  first
    [ solve [apply: skips_saves; saves_run]
    | lazymatch goal with
      | |- adds_on_return _ (bind _ _) => apply: skips_bind; [only_run | intro]
      | |- adds_on_return _ (ret _) => exact: skips_ret
      | |- adds_on_return _ (if ?b then _ else _) => case: b
      | |- adds_on_return _ (match ?x with _ => _ end) =>
          first [progress cbv iota beta | destruct x]
      | |- adds_on_return _ (let _ := _ in _) => cbv zeta
      end ].

Ltac skips_run := repeat skips_step.

Section SavesRenderers.

Variables (ext : externals) (file : string).

Lemma trace_saves posterior Zchain thinning burnin fignum :
  adds_on_return (saves_last file)
    (trace ext posterior Zchain thinning burnin fignum (Some file)).
Proof. by unfold_renderers; saves_run. Qed.

Lemma histogram_saves posterior thinning fignum percentile pdf xpdf :
  adds_on_return (saves_last file)
    (histogram ext posterior thinning fignum (Some file) percentile pdf xpdf).
Proof. by unfold_renderers; saves_run. Qed.

Lemma modelfit_saves data uncert indparams model nbins fignum :
  adds_on_return (saves_last file)
    (modelfit ext data uncert indparams model nbins fignum (Some file)).
Proof. by unfold_renderers; saves_run. Qed.

Lemma pairwise_saves posterior thinning fignum nbins nlevels dens :
  adds_on_return (skipped_or_saved file)
    (pairwise posterior thinning fignum (Some file) nbins nlevels dens).
Proof. by unfold_renderers; skips_run. Qed.

Lemma RMS_saves binsz rms stderr rmslo rmshi cadence binstep timepoints ratio
    fignum yran xran :
  adds_on_return (skipped_or_saved file)
    (RMS binsz rms stderr rmslo rmshi cadence binstep timepoints ratio fignum
         yran xran (Some file)).
Proof. by unfold_renderers; skips_run. Qed.

End SavesRenderers.

(** X4: with a [savefile], a call of [trace], [histogram] or [modelfit]
    that returns has saved the figure to that file as the last thing it
    did, and only then; a call of [pairwise] or [RMS] that returns has
    either done the same or has added nothing at all to the figure (the
    single-parameter and single-point cases, which return at once). *)
Theorem returns_after_saving ext (s : mem) (file : string) :
  let saved_ P A (m : M A) :=
    forall a, (m s).2 = Ok a -> exists2 cs, fig (m s).1 = fig s ++ cs & P cs in
  [/\ forall posterior Zchain thinning burnin fignum,
        saved_ (saves_last file) _
          (trace ext posterior Zchain thinning burnin fignum (Some file)),
      forall posterior thinning fignum nbins nlevels absolute_dens,
        saved_ (skipped_or_saved file) _
          (pairwise posterior thinning fignum (Some file) nbins nlevels
                    absolute_dens),
      forall posterior thinning fignum percentile pdf xpdf,
        saved_ (saves_last file) _
          (histogram ext posterior thinning fignum (Some file) percentile pdf
                     xpdf),
      forall binsz rms stderr rmslo rmshi cadence binstep timepoints ratio
             fignum yran xran,
        saved_ (skipped_or_saved file) _
          (RMS binsz rms stderr rmslo rmshi cadence binstep timepoints ratio
               fignum yran xran (Some file))
    & forall data uncert indparams model nbins fignum,
        saved_ (saves_last file) _
          (modelfit ext data uncert indparams model nbins fignum (Some file))].
Proof.
split=> *.
- by apply: trace_saves; eassumption.
- by apply: pairwise_saves; eassumption.
- by apply: histogram_saves; eassumption.
- by apply: RMS_saves; eassumption.
- by apply: modelfit_saves; eassumption.
Qed.

(** ** More on [trace] *)

(** What [trace] does when no chain indices are given. *)
Lemma trace_plain_run ext npars rows thinning burnin fignum savefile :
  thinning <> 0%Z ->
  returns (run (trace ext 0 None thinning burnin fignum savefile)
               [:: Matrix npars rows])
          tt
          (trace_figure ext npars rows false [::] thinning fignum savefile).
Proof.
move=> Hthin; rw /run /trace; mrun; rw thinE //; mrun.
rw (@trace_loopE ext _ 0 npars rows thinning) //.
by rw saveE.
Qed.

(** What [trace] does, with or without chain indices. *)
Lemma trace_run ext npars rows Zchain thinning burnin fignum savefile :
  thinning <> 0%Z -> trace_ok rows Zchain ->
  let args0 := [:: Matrix npars rows] in
  returns (run (trace ext 0 (opt_loc args0 (omap Ints Zchain)) thinning burnin
                      fignum savefile)
               (with_opt args0 (omap Ints Zchain)))
          tt
          (trace_figure ext npars (trace_rows Zchain burnin rows)
                        (isSome Zchain) (trace_xsep Zchain thinning burnin)
                        thinning fignum savefile).
Proof.
move=> Hthin; case: Zchain => [z|] /=; last by move=> _; exact: trace_plain_run.
by case/andP => Hz /eqP Hsize; exact: trace_chains_run.
Qed.

Lemma subplots_trace_panels ext chains xsep npars xmax rows f idx :
  [seq c <- trace_panels ext chains xsep npars xmax rows f idx | is_subplot c]
  = [seq c <- f | is_subplot c]
    ++ [seq subplot (Z.of_nat npars) 1 (Z.of_nat i + 1) | i <- idx].
Proof.
rw /trace_panels; elim: idx f => [|i idx IH] f /=; first by rw cats0.
rw IH /trace_panel_calls !filter_cat /= -!catA; congr (_ ++ _).
by case: (chains).
Qed.

Lemma xlims_trace_panels ext chains xsep npars xmax rows f idx :
  [seq c <- trace_panels ext chains xsep npars xmax rows f idx | is_xlim c]
  = [seq c <- f | is_xlim c] ++ [seq xlim 0 (of_nat xmax) | _ <- idx].
Proof.
rw /trace_panels; elim: idx f => [|i idx IH] f /=; first by rw cats0.
rw IH /trace_panel_calls !filter_cat /= -!catA; congr (_ ++ _).
by case: (chains).
Qed.

Lemma no_vlines_trace_panels ext xsep npars xmax rows f idx :
  [seq c <- trace_panels ext false xsep npars xmax rows f idx | is_vlines c]
  = [seq c <- f | is_vlines c].
Proof.
rw /trace_panels; elim: idx f => [|i idx IH] f //=.
by rw IH /trace_panel_calls !filter_cat /= cats0.
Qed.


(** X6: without chain indices [trace] plots, for each parameter, every
    [thinning]-th sample of its column in the order given, whatever
    [burnin] is, and draws no separator. *)
Theorem trace_without_chains ext npars rows thinning burnin fignum savefile :
  thinning <> 0%Z ->
  let out := run (trace ext 0 None thinning burnin fignum savefile)
                 [:: Matrix npars rows] in
  [/\ out.2 = Ok tt,
      [seq plotted c | c <- fig out.1 & is_plot c]
      = [seq column i (thin thinning rows) | i <- iota 0 npars]
    & [seq c <- fig out.1 | is_vlines c] = [::]].
Proof.
move=> Hthin; cbv zeta.
have [-> ->] := trace_plain_run ext npars rows burnin fignum savefile Hthin.
split=> //; rw /trace_figure filter_cat.
- by rw map_cat plots_trace_panels /=; case: savefile => [f|] /=; rw cats0.
- by rw no_vlines_trace_panels /=; case: savefile.
Qed.

(** [s[b:]] drops a prefix, whatever the sign of [b]. *)
Lemma slice_from_drop A (b : Z) (s : seq A) :
  slice_from b s
  = drop (if (0 <=? b)%Z then Z.to_nat b else size s - Z.to_nat (- b)) s.
Proof. by rw /slice_from; case: (0 <=? b)%Z. Qed.

Lemma slice_from_map A B (f : A -> B) (b : Z) (s : seq A) :
  slice_from b [seq f x | x <- s] = [seq f x | x <- slice_from b s].
Proof. by rw !slice_from_drop size_map map_drop. Qed.

Section SelectionAny.

Variables (z : seq Z) (rows : seq (seq Q)) (burnin : Z).

Hypothesis Hsize : size rows = size z.

Local Abbreviation good := (good_mask z burnin (nchains_of z)).
Local Abbreviation d0 := (0%Z, [::] : seq Q).

(** A sample is kept when its chain index is not negative and it is in
    the slice [[burnin:]] of the samples of its chain. *)
Lemma good_of_any_chain c k :
  k \in where_eq z c ->
  nth false good k
  = (0 <=? c)%Z && (k \in slice_from burnin (where_eq z c)).
Proof.
rw /where_eq mem_filter mem_iota add0n /= => /andP [/Z.eqb_spec Ec Hk].
rw nth_good_mask; apply/hasP/andP => [[c' Hc' Hd]|[/Z.leb_spec0 H0 Hd]].
  have Hd' := Hd; move: Hd'; rw slice_from_drop => /mem_drop.
  rw /where_eq mem_filter => /andP [/Z.eqb_spec Ec' _].
  move: Hd; rw -Ec' Ec => Hd; split=> //.
  move: Hc'; rw -Ec' Ec /arange => /mapP [i _ ->].
  by apply/Z.leb_spec0; lia.
exists c => //; rw /nchains_of /arange.
case Ez : (amaxZ z) => [top|e]; last by case: (z) Ez Hk.
have /allP /(_ c) := amaxZ_ge Ez.
have Hin : c \in z by rw -Ec; apply: mem_nth.
move=> /(_ Hin) /Z.leb_spec0 Htop.
apply/mapP; exists (Z.to_nat c); last by rw Z2Nat.id.
by rw mem_iota add0n /=; apply/ltP; lia.
Qed.

(** Chain by chain, the kept samples are the slice [[burnin:]] of the
    samples of the chain; none is kept of a chain of negative index. *)
Lemma kept_any_chain c :
  [seq s <- zip (kept z burnin z) (kept z burnin rows) | (s.1 =? c)%Z]
  = if (0 <=? c)%Z
    then slice_from burnin [seq s <- zip z rows | (s.1 =? c)%Z]
    else [::].
Proof.
have Hz : size (zip z rows) = size z by rw size_zip Hsize minnn.
have Hnth k : (nth d0 (zip z rows) k).1 = nth 0%Z z k by rw nth_zip.
have Hall (idx : seq nat) :
    [seq s <- [seq nth d0 (zip z rows) k | k <- idx] | (s.1 =? c)%Z]
    = [seq nth d0 (zip z rows) k | k <- idx & (nth 0%Z z k =? c)%Z].
  by rw filter_map; congr map; apply: eq_filter => k /=; rw Hnth.
rw /kept -mask_zip (mask_nth d0) ?size_good_mask ?Hz // Hall -filter_predI.
have Hgood k : k \in iota 0 (size z) ->
    predI (fun k => (nth 0%Z z k =? c)%Z) (fun k => nth false good k) k
    = (0 <=? c)%Z && (k \in slice_from burnin (where_eq z c)).
  move=> Hk /=; case Ek : (nth 0%Z z k =? c)%Z => /=.
    by apply: good_of_any_chain; rw /where_eq mem_filter Ek.
  case: (0 <=? c)%Z => //=; apply/esym/negbTE/negP.
  by rw slice_from_drop => /mem_drop; rw /where_eq mem_filter Ek.
rw (eq_in_filter Hgood); case: (0 <=? c)%Z => /=.
  rw -{2}[zip z rows](mkseq_nth d0) /mkseq Hall Hz -/(where_eq z c).
  rw slice_from_map; congr map.
  have Hu : uniq (where_eq z c) by rw /where_eq filter_uniq ?iota_uniq.
  rw slice_from_drop -[RHS](filter_mem_drop _ Hu).
  rw {3}/where_eq -filter_predI; apply: eq_in_filter => k Hk /=.
  by case Ek : (nth 0%Z z k =? c)%Z; rw ?andbT //= andbF;
     apply/negbTE/negP => /mem_drop; rw /where_eq mem_filter Ek.
by rw filter_pred0.
Qed.

End SelectionAny.


Lemma bind_lift_raise A B e (k : A -> M B) s :
  (x <~ lift (Raise e) ;; k x) s = (s, Raise e).
Proof. by []. Qed.

(** X8: a zero [thinning], or an empty array of chain indices, makes
    [trace] raise ValueError before it has touched the figure. *)
Theorem trace_raises_before_drawing ext npars rows Zchain thinning burnin
    fignum savefile :
  (if Zchain is Some z then z = [::] \/ (thinning = 0%Z /\ size rows = size z)
   else thinning = 0%Z) ->
  let args0 := [:: Matrix npars rows] in
  let out := run (trace ext 0 (opt_loc args0 (omap Ints Zchain)) thinning
                        burnin fignum savefile)
                 (with_opt args0 (omap Ints Zchain)) in
  out.2 = Raise ValueError /\ fig out.1 = [::].
Proof.
case: Zchain => [z|] /=; last first.
  by move=> ->; rw /run /trace; mrun; rw /slice_step /= ?bind_lift_raise.
have Hempty t : z = [::] ->
    let out := run (trace ext 0 (Some 1) t burnin fignum savefile)
                   [:: Matrix npars rows; Ints z] in
    out.2 = Raise ValueError /\ fig out.1 = [::].
  by move=> ->; rw /run /trace /trace_chains /load_ints; mrun;
     rw ?bindA ?bind_lift_raise.
case=> [|[-> Hsize]]; first exact: Hempty.
have [Ez|Hz] : z = [::] \/ 0 < size z by case: (z); [left | right].
  exact: Hempty.
rw /run /trace /trace_chains /load_ints.
mrun; have [top Etop] : exists top, amaxZ z = Ok top.
  by case: (z) Hz => // x s _; eexists.
rw Etop; mrun; rw !bindA mark_good_loopE ?size_nseq // /load_bools /load_ints.
rw -/(good_mask z burnin (top + 1)).
have -> : (top + 1)%Z = nchains_of z by rw /nchains_of Etop.
mrun; rw getitem_maskE ?size_good_mask //; mrun.
rw getitem_maskE ?size_good_mask //; mrun.
rw -/(kept z burnin rows) -/(kept z burnin z).
have Hk : size (kept z burnin rows) = size (kept z burnin z).
  by rw !size_kept.
rw getitem_idxE ?Hk ?lexsort_lt //; mrun.
by rw getitem_idxE ?lexsort_lt //; mrun.
Qed.

(** ** More on [pairwise] *)

Lemma zip_iota_map A (f : nat -> A) (h b m : nat) :
  zip (iota h m) [seq f y | y <- iota b m]
  = [seq (h + (y - b), f y) | y <- iota b m].
Proof.
elim: m h b => [|m IH] h b //.
rw -[iota h m.+1]/(h :: iota h.+1 m) -[iota b m.+1]/(b :: iota b.+1 m).
rw !map_cons /= IH subnn addn0; congr (_ :: _).
apply/eq_in_map => y; rw mem_iota => /andP [Hy _].
by rw -(subnSK Hy) addSnnS.
Qed.

(** The counter [h] counts the cells row by row. *)
Lemma zip_iota_cells (h a k m : nat) :
  zip (iota h (k * m)) [seq (j, i) | j <- iota a k, i <- iota 0 m]
  = [seq (h + (j - a) * m + i, (j, i)) | j <- iota a k, i <- iota 0 m].
Proof.
elim: k h a => [|k IH] h a //.
rw -[iota a k.+1]/(a :: iota a.+1 k) !allpairs_cons mulSn iotaD.
rw zip_cat ?size_map ?size_iota // IH; congr (_ ++ _).
  rw zip_iota_map subnn mul0n addn0.
  by apply/eq_map => i; rw subn0.
apply/eq_in_allpairs => j i; rw mem_iota => /andP [Hj _] _.
by rw -(subnSK Hj) mulSn !addnA.
Qed.

Lemma numbered_cells npars :
  numbered 1 (cells npars)
  = [seq (grid_index npars ji, ji) | ji <- cells npars].
Proof.
rw /numbered /cells size_allpairs !size_iota zip_iota_cells map_allpairs.
apply/eq_in_allpairs => j i _ _; rw /grid_index /=.
by rw add1n -addn1 addnAC.
Qed.


(** X10: for two parameters or more, a zero [thinning] or a number of
    bins that is not positive makes [pairwise] raise ValueError before it
    has touched the figure. *)
Theorem pairwise_raises_before_drawing (npars : nat) rows thinning fignum
    savefile nbins nlevels absolute_dens :
  1 < npars -> thinning = 0%Z \/ (nbins <= 0)%Z ->
  let out := run (pairwise 0 thinning fignum savefile nbins nlevels
                           absolute_dens) [:: Matrix npars rows] in
  out.2 = Raise ValueError /\ fig out.1 = [::].
Proof.
case: npars => [|[|n]] // _ Hbad; rw /run /pairwise; mrun.
rw subn1 [n.+2.-1]/= -[iota 1 n.+1]/(1 :: iota 2 n).
rw -[iota 0 n.+1]/(0 :: iota 1 n) !for_acc_cons !bindA {1}/gather_cell.
rw bind_loadE /= !bindA bind_lift_ok /=.
have [E0|Hthin] : thinning = 0%Z \/ thinning <> 0%Z by lia.
  by rw E0 /slice_step /= ?bindA ?bind_lift_raise.
case: Hbad => // /Z.leb_spec0 Hbins.
by rw thinE // ?bindA bind_lift_ok /np_histogram2d Hbins ?bindA ?bind_lift_raise.
Qed.

(** ** More on [histogram] *)

Lemma loop_max_tops ext f m cs :
  loop_max ext f m cs = foldl Qmax m (panel_tops ext f cs).
Proof. by elim: cs f m => //= c cs IH f m; rw IH. Qed.

Lemma foldl_Qmax_ge (m : Q) (s : seq Q) :
  (m <= foldl Qmax m s)%Q
  /\ forall k, k < size s -> (nth 0%Q s k <= foldl Qmax m s)%Q.
Proof.
elim: s m => [|x s IH] m /=; first by split=> //; exact: Qle_refl.
have [Hm Hs] := IH (Qmax m x); split.
  by apply: Qle_trans Hm; exact: Q.le_max_l.
case=> [_|k Hk] /=; last exact: Hs.
by apply: Qle_trans Hm; exact: Q.le_max_r.
Qed.

Lemma size_panel_tops ext f cs : size (panel_tops ext f cs) = size cs.
Proof. by elim: cs f => //= c cs IH f; rw IH. Qed.



(** X13: a zero [thinning] makes [histogram] raise ValueError when it is
    about to draw the first histogram: the figure has been selected and
    cleared and its first panel selected, and nothing is drawn in it. *)
Theorem histogram_zero_thinning ext posterior pdf xpdf npars rows percentile
    fignum savefile :
  as_matrix posterior = Some (npars, rows) -> 0 < npars ->
  pdf_ok npars (isSome percentile) pdf xpdf ->
  let args0 := [:: posterior] in
  let args1 := with_opt args0 pdf in
  let out := run (histogram ext 0 0 fignum savefile percentile
                            (opt_loc args0 pdf) (opt_loc args1 xpdf))
                 (with_opt args1 xpdf) in
  out.2 = Raise ValueError
  /\ fig out.1 = [:: figure fignum 8 (histheight_of npars); clf;
                     subplot (nrows_of (Z.of_nat npars))
                             (ncolumns_of (Z.of_nat npars)) 1].
Proof.
move=> Hm.
case: posterior Hm => [v|v| |n r|] // [<- _] Hn Hok.
all: cbv zeta; rw /run /histogram /expand_dims.
all: case: pdf Hok => [[a|a|a|k a|P]|] //=.
all: case: xpdf => [[b|b|b|k' b|X]|] //=.
all: rw ?andbF ?andbT ?orbF // => Hok.
all: rw /pdf_lists /wrap_array; mrun.
all: try (case: n Hn Hok => [|n] // _ Hok).
all: rw -?[iota 0 1]/(0 :: iota 1 0) -?[iota 0 n.+1]/(0 :: iota 1 n).
all: rw for_acc_cons !bindA {1}/histogram_panel; mrun.
all: by rw /slice_step /= ?bindA ?bind_lift_raise.
Qed.

(** ** More on [RMS] *)

Lemma strideE A binstep (a : seq A) :
  binstep <> 0%Z -> slice_stride binstep a = Ok (stride binstep a).
Proof. by move=> /slice_stride_ok -/(_ _ a) [t E]; rw /stride E. Qed.

Lemma min_ofE (a : seq Q) : 0 < size a -> amin a = Ok (min_of a).
Proof. by move=> /amin_ok [v E]; rw /min_of E. Qed.

Lemma max_ofE (a : seq Q) : 0 < size a -> amax a = Ok (max_of a).
Proof. by move=> /amax_ok [v E]; rw /max_of E. Qed.

Lemma broadcastE op (a b : seq Q) :
  size a = size b -> broadcast op a b = Ok (elementwise op a b).
Proof. exact: broadcast_same. Qed.

Lemma size_elementwise op (a b : seq Q) :
  size a = size b -> size (elementwise op a b) = size b.
Proof. by move=> E; rw /elementwise size_map size_zip E minnn. Qed.

Lemma range_atE h f l :
  has_range h l -> range_at l (Mem h f) = (Mem h f, Ok (range_of h l)).
Proof.
rw /has_range /range_of /range_at /load_floats => /andP [Hl].
by mrun; rw Hl; case: (nth _ h l) => // [[|a [|b s]]].
Qed.

Lemma vlines_loopE B (k : unit -> M B) yran (tp : seq Q) h f :
  has_range h yran ->
  (x <~ for_ tp (fun time => yr <~ range_at yran ;;
                             emit (vlines [:: time] yr.1 yr.2)) ;; k x) (Mem h f)
  = k tt (Mem h (f ++ [seq vlines [:: t] (range_of h yran).1 (range_of h yran).2
                      | t <- tp])).
Proof.
move=> Hy; apply: RMS_vlines_loop => g; rw range_atE //.
by case: (range_of h yran).
Qed.

(** What [RMS] does for two RMS values or more. *)
Lemma RMS_run binsz rms stderr rmslo rmshi cadence binstep
    (timepoints yran xran : option (seq Q)) ratio fignum savefile :
  rms_ok binsz rms stderr rmslo rmshi -> binstep <> 0%Z ->
  range_ok yran -> range_ok xran ->
  let args0 := rms_args binsz rms stderr rmslo rmshi in
  let args1 := with_opt args0 (omap Floats timepoints) in
  let args2 := with_opt args1 (omap Floats yran) in
  returns (run (RMS 0 1 2 3 4 cadence binstep
                    (opt_loc args0 (omap Floats timepoints)) ratio fignum
                    (opt_loc args1 (omap Floats yran))
                    (opt_loc args2 (omap Floats xran)) savefile)
               (with_opt args2 (omap Floats xran)))
          tt
          (rms_figure binsz rms stderr rmslo rmshi cadence binstep
                      (if timepoints is Some t then t else [::]) ratio fignum
                      yran xran savefile).
Proof.
case/and5P => n1 /eqP ebs /eqP ese /eqP elo /eqP ehi nz Hy Hx.
have n0 : 0 < size rms by exact: ltn_trans n1.
have Ee : last_item stderr = Ok (last 0%Q stderr).
  by case: (stderr) ese n0 => [<- //|x s _ _].
cbv zeta; rw /run /RMS /rms_args /load_floats.
have Hs := (size_elementwise, size_map, ebs, ese, elo, ehi).
case: timepoints => [tp|]; case: yran Hy => [[|y0 [|y1 [|? ?]]]|] // _;
  case: xran Hx => [[|x0 [|x1 [|? ?]]]|] // _; mrun.
all: rw leqNgt n1 /= ?/default_yran ?/reduce2 ?/load_floats; mrun.
all: rw ?broadcastE ?Hs //; mrun; rw ?min_ofE ?Hs //; mrun.
all: rw ?broadcastE ?Hs //; mrun; rw ?max_ofE ?Hs //; mrun.
all: rw ?Ee ?/setitem ?/load_floats; mrun.
all: case: ratio; mrun.
all: rw ?broadcastE ?Hs //; mrun; rw ?max_ofE ?Hs //; mrun.
all: rw ?/default_xran ?/load_floats; mrun; rw ?max_ofE ?Hs //; mrun.
all: rw strideE // /stepped2 /load_floats; mrun.
all: rw ?broadcastE ?Hs //; mrun; rw ?strideE //; mrun.
all: rw ?broadcastE ?Hs //; mrun; rw ?strideE //; mrun.
all: rw ?broadcastE ?Hs //; mrun; rw ?strideE //; mrun.
all: rw ?vlines_loopE // /range_at /load_floats; mrun; rw saveE.
all: by split=> //=; rw /rms_figure /= -!cats1 -!catA.
Qed.

Lemma filter_no_vlines (a : pred call) (tp : seq Q) lo hi :
  (forall x l h, ~~ a (vlines x l h)) ->
  [seq c <- [seq vlines [:: t] lo hi | t <- tp] | a c] = [::].
Proof. by move=> Ha; elim: tp => //= t tp ->; rw (negbTE (Ha _ _ _)). Qed.

Lemma filter_all_vlines (tp : seq Q) lo hi :
  [seq c <- [seq vlines [:: t] lo hi | t <- tp] | is_vlines c]
  = [seq vlines [:: t] lo hi | t <- tp].
Proof. by elim: tp => //= t tp ->. Qed.

Lemma filter_no_saved (a : pred call) savefile :
  (forall f, ~~ a (savefig f)) -> [seq c <- saved savefile | a c] = [::].
Proof. by move=> Ha; case: savefile => //= f; rw (negbTE (Ha f)). Qed.

Section RMSFigure.

Variables (binsz rms stderr rmslo rmshi : seq Q) (cadence : option Q).
Variables (binstep : Z) (timepoints yran xran : option (seq Q)).
Variables (ratio : bool) (fignum : Z) (savefile : option string).

Hypothesis Hok : rms_ok binsz rms stderr rmslo rmshi.
Hypothesis Hstep : binstep <> 0%Z.
Hypothesis Hyran : range_ok yran.
Hypothesis Hxran : range_ok xran.

Local Abbreviation out :=
  (run (RMS 0 1 2 3 4 cadence binstep
            (opt_loc (rms_args binsz rms stderr rmslo rmshi)
                     (omap Floats timepoints))
            ratio fignum
            (opt_loc (with_opt (rms_args binsz rms stderr rmslo rmshi)
                               (omap Floats timepoints))
                     (omap Floats yran))
            (opt_loc (with_opt (with_opt (rms_args binsz rms stderr rmslo rmshi)
                                         (omap Floats timepoints))
                               (omap Floats yran))
                     (omap Floats xran))
            savefile)
       (with_opt (with_opt (with_opt (rms_args binsz rms stderr rmslo rmshi)
                                     (omap Floats timepoints))
                           (omap Floats yran))
                 (omap Floats xran))).

Local Abbreviation yr := (rms_yran rms stderr rmslo rmshi ratio yran).
Local Abbreviation xr := (rms_xran binsz (cadence_of cadence) xran).
Local Abbreviation tp := (if timepoints is Some t then t else [::]).

Lemma RMS_returns : out.2 = Ok tt.
Proof. by have [] := RMS_run cadence timepoints ratio fignum savefile Hok Hstep Hyran Hxran. Qed.

Lemma RMS_ylims : [seq c <- fig out.1 | is_ylim c] = [:: ylim yr.1 yr.2].
Proof.
have [_ ->] := RMS_run cadence timepoints ratio fignum savefile Hok Hstep Hyran Hxran.
rw /rms_figure /rms_curves; cbv zeta; rw !filter_cat filter_no_vlines //.
by rw filter_no_saved //; case: (ratio).
Qed.

Lemma RMS_xlims :
  [seq c <- fig out.1 | is_xlim c] = [:: xlim (nth 0%Q xr 0) (nth 0%Q xr 1)].
Proof.
have [_ ->] := RMS_run cadence timepoints ratio fignum savefile Hok Hstep Hyran Hxran.
rw /rms_figure /rms_curves; cbv zeta; rw !filter_cat filter_no_vlines //.
by rw filter_no_saved //; case: (ratio).
Qed.

Lemma RMS_vlines :
  [seq c <- fig out.1 | is_vlines c] = [seq vlines [:: t] yr.1 yr.2 | t <- tp].
Proof.
have [_ ->] := RMS_run cadence timepoints ratio fignum savefile Hok Hstep Hyran Hxran.
rw /rms_figure /rms_curves; cbv zeta; rw !filter_cat filter_all_vlines.
by rw filter_no_saved //; case: (ratio); rw /= cats0.
Qed.

Lemma RMS_curves :
  [seq c <- fig out.1 | is_errorbar c || is_reference c]
  = rms_curves binsz rms stderr rmslo rmshi (cadence_of cadence) binstep ratio
               xr.
Proof.
have [_ ->] := RMS_run cadence timepoints ratio fignum savefile Hok Hstep Hyran Hxran.
rw /rms_figure /rms_curves; cbv zeta; rw !filter_cat filter_no_vlines //.
by rw filter_no_saved //; case: (ratio).
Qed.

End RMSFigure.

(** X14: in absolute mode with no [yran] given, [RMS] returns and the
    one y-range it applies runs from the smaller of [min(rms - rmslo)]
    and the last [stderr] to [max(rms + rmshi)]. *)
Theorem RMS_absolute_yran (binsz rms stderr rmslo rmshi : seq Q)
    (timepoints xran : option (seq Q)) cadence binstep fignum savefile :
  rms_ok binsz rms stderr rmslo rmshi -> binstep <> 0%Z -> range_ok xran ->
  let args0 := rms_args binsz rms stderr rmslo rmshi in
  let args1 := with_opt args0 (omap Floats timepoints) in
  let out := run (RMS 0 1 2 3 4 cadence binstep
                      (opt_loc args0 (omap Floats timepoints))
                      false fignum None (opt_loc args1 (omap Floats xran))
                      savefile)
                 (with_opt args1 (omap Floats xran)) in
  exists lo hi e,
    [/\ amin (elementwise Qminus rms rmslo) = Ok lo,
        amax (elementwise Qplus rms rmshi) = Ok hi,
        last_item stderr = Ok e,
        out.2 = Ok tt
      & [seq c <- fig out.1 | is_ylim c] = [:: ylim (Qmin lo e) hi]].
Proof.
move=> Hok Hstep Hx; cbv zeta.
case/and5P: (Hok) => n1 _ /eqP ese /eqP elo /eqP ehi.
have n0 : 0 < size rms by exact: ltn_trans n1.
exists (min_of (elementwise Qminus rms rmslo)),
       (max_of (elementwise Qplus rms rmshi)), (last 0%Q stderr).
split.
- by rw min_ofE // size_elementwise ?elo.
- by rw max_ofE // size_elementwise ?ehi.
- by case: (stderr) ese n0 => [<- //|x s _ _].
- exact: (@RMS_returns _ _ _ _ _ cadence binstep timepoints None xran false
            fignum savefile Hok Hstep isT Hx).
- exact: (@RMS_ylims _ _ _ _ _ cadence binstep timepoints None xran false
            fignum savefile Hok Hstep isT Hx).
Qed.

(** X15: ranges given by the caller are applied as they are, in either
    mode: the one y-range set is [[yran[0], yran[1]]] and the one x-range
    set is [[xran[0], xran[1]]]. *)
Theorem RMS_given_ranges (binsz rms stderr rmslo rmshi : seq Q)
    (timepoints : option (seq Q)) (y0 y1 x0 x1 : Q) cadence binstep ratio
    fignum savefile :
  rms_ok binsz rms stderr rmslo rmshi -> binstep <> 0%Z ->
  let args0 := rms_args binsz rms stderr rmslo rmshi in
  let args1 := with_opt args0 (omap Floats timepoints) in
  let out := run (RMS 0 1 2 3 4 cadence binstep
                      (opt_loc args0 (omap Floats timepoints))
                      ratio fignum (Some (size args1)) (Some (size args1).+1)
                      savefile)
                 (args1 ++ [:: Floats [:: y0; y1]; Floats [:: x0; x1]]) in
  [/\ out.2 = Ok tt,
      [seq c <- fig out.1 | is_ylim c] = [:: ylim y0 y1]
    & [seq c <- fig out.1 | is_xlim c] = [:: xlim x0 x1]].
Proof.
move=> Hok Hstep; cbv zeta.
have Hr := @RMS_returns _ _ _ _ _ cadence binstep timepoints
             (Some [:: y0; y1]) (Some [:: x0; x1]) ratio fignum savefile
             Hok Hstep isT isT.
have Hy := @RMS_ylims _ _ _ _ _ cadence binstep timepoints
             (Some [:: y0; y1]) (Some [:: x0; x1]) ratio fignum savefile
             Hok Hstep isT isT.
have Hx := @RMS_xlims _ _ _ _ _ cadence binstep timepoints
             (Some [:: y0; y1]) (Some [:: x0; x1]) ratio fignum savefile
             Hok Hstep isT isT.
by case: timepoints Hr Hy Hx => [t|] /=.
Qed.




(** X19: a zero [binstep] makes [RMS] raise ValueError when it is about
    to draw the first curve: the figure has been selected and cleared
    and its panel selected, and nothing is drawn in it. *)
Theorem RMS_zero_binstep (binsz rms stderr rmslo rmshi : seq Q)
    (timepoints yran xran : option (seq Q)) cadence ratio fignum savefile :
  rms_ok binsz rms stderr rmslo rmshi -> range_ok yran -> range_ok xran ->
  let args0 := rms_args binsz rms stderr rmslo rmshi in
  let args1 := with_opt args0 (omap Floats timepoints) in
  let args2 := with_opt args1 (omap Floats yran) in
  let out := run (RMS 0 1 2 3 4 cadence 0
                      (opt_loc args0 (omap Floats timepoints)) ratio fignum
                      (opt_loc args1 (omap Floats yran))
                      (opt_loc args2 (omap Floats xran)) savefile)
                 (with_opt args2 (omap Floats xran)) in
  out.2 = Raise ValueError
  /\ fig out.1 = [:: figure fignum 8 6; clf; subplot 1 1 1].
Proof.
case/and5P => n1 /eqP ebs /eqP ese /eqP elo /eqP ehi Hy Hx.
have n0 : 0 < size rms by exact: ltn_trans n1.
have Ee : last_item stderr = Ok (last 0%Q stderr).
  by case: (stderr) ese n0 => [<- //|x s _ _].
cbv zeta; rw /run /RMS /rms_args /load_floats.
have Hs := (size_elementwise, size_map, ebs, ese, elo, ehi).
case: timepoints => [tp|]; case: yran Hy => [[|y0 [|y1 [|? ?]]]|] // _;
  case: xran Hx => [[|x0 [|x1 [|? ?]]]|] // _; mrun.
all: rw leqNgt n1 /= ?/default_yran ?/reduce2 ?/load_floats; mrun.
all: rw ?broadcastE ?Hs //; mrun; rw ?min_ofE ?Hs //; mrun.
all: rw ?broadcastE ?Hs //; mrun; rw ?max_ofE ?Hs //; mrun.
all: rw ?Ee ?/setitem ?/load_floats; mrun.
all: case: ratio; mrun.
all: rw ?broadcastE ?Hs //; mrun; rw ?max_ofE ?Hs //; mrun.
all: rw ?/default_xran ?/load_floats; mrun; rw ?max_ofE ?Hs //; mrun.
all: by rw /slice_stride /= ?bindA ?bind_lift_raise.
Qed.

(** ** More on [modelfit] *)

(** X20: with [nbins = 0] [modelfit] raises ZeroDivisionError at once:
    the binning collaborator is not called and the figure is not
    touched. *)
Theorem modelfit_zero_bins ext (data uncert indparams model : seq Q) fignum
    savefile :
  let out := run (modelfit ext 0 1 2 3 0 fignum savefile)
                 [:: Floats data; Floats uncert; Floats indparams;
                     Floats model] in
  out.2 = Raise ZeroDivisionError /\ fig out.1 = [::].
Proof. by rw /run /modelfit /load_floats; mrun. Qed.


(** X22: for [n >= 1] data points and [nbins >= 1] the bin size of line
    449 is at least 1 and at most [n]; [nbins] bins of that size hold
    all the points, and no smaller size would do; it is 1 when there are
    no more points than bins. *)
Theorem modelfit_bins_cover (n nbins : Z) :
  (1 <= n)%Z -> (1 <= nbins)%Z ->
  exists binsize,
    [/\ binsize_of n nbins = Ok binsize,
        (1 <= binsize <= n)%Z,
        (n <= nbins * binsize)%Z,
        (nbins * (binsize - 1) < n)%Z
      & (n <= nbins)%Z -> binsize = 1%Z].
Proof.
move=> Hn Hb; exists ((n - 1) / nbins + 1)%Z.
have Eb : binsize_of n nbins = Ok ((n - 1) / nbins + 1)%Z.
  by rw /binsize_of; case: Z.eqb_spec => // E; move: Hb; rw E.
have := Z.div_mod (n - 1) nbins ltac:(lia).
have := Z.mod_pos_bound (n - 1) nbins ltac:(lia).
move: ((n - 1) / nbins)%Z ((n - 1) mod nbins)%Z Eb => q r Eb Hr Hq.
have Hq0 : (0 <= q)%Z by nia.
by split=> //; nia.
Qed.

(** In every panel the separators span the y-range the panel is given. *)
Lemma spans_trace_panels ext xsep npars xmax rows f idx :
  [seq y_span c | c <- f & is_vlines c] = [seq y_span c | c <- f & is_ylim c] ->
  [seq y_span c | c <- trace_panels ext true xsep npars xmax rows f idx
                & is_vlines c]
  = [seq y_span c | c <- trace_panels ext true xsep npars xmax rows f idx
                  & is_ylim c].
Proof.
rw /trace_panels; elim: idx f => [|i idx IH] f //= Hf; apply: IH.
by rw /trace_panel_calls !filter_cat !map_cat Hf.
Qed.

Lemma ylims_trace_panels ext chains xsep npars xmax rows f idx :
  size [seq c <- trace_panels ext chains xsep npars xmax rows f idx | is_ylim c]
  = size [seq c <- f | is_ylim c] + size idx.
Proof.
rw /trace_panels; elim: idx f => [|i idx IH] f /=; first by rw addn0.
rw IH /trace_panel_calls !filter_cat !size_cat /=.
by case: (chains); rw /= ?addn0 ?add0n addn1 addSn addnS.
Qed.

(** X23: with the chain indices given, [trace] draws the separators of
    each panel over exactly the y-range that matplotlib gave the panel
    when its samples were plotted, and then fixes the panel to that
    range: panel by panel, the span of the separators is the y-range
    set, and there is one of each per parameter. *)
Theorem trace_separators_span ext npars rows z thinning burnin fignum savefile :
  0 < size z -> size rows = size z -> thinning <> 0%Z ->
  let out := run (trace ext 0 (Some 1) thinning burnin fignum savefile)
                 [:: Matrix npars rows; Ints z] in
  [/\ out.2 = Ok tt,
      [seq y_span c | c <- fig out.1 & is_vlines c]
      = [seq y_span c | c <- fig out.1 & is_ylim c]
    & size [seq c <- fig out.1 | is_ylim c] = npars].
Proof.
move=> Hz Hsize Hthin; cbv zeta.
have [-> ->] := trace_chains_run ext npars burnin fignum savefile Hz Hsize Hthin.
rw /trace_figure !filter_cat !map_cat !(filter_no_saved savefile) // !cats0.
split=> //; first exact: spans_trace_panels.
by rw ylims_trace_panels /= size_iota.
Qed.

(** ** The further theorems on sample inputs *)


(** X6 on six samples of two parameters, every second one plotted. *)
Lemma trace_without_chains_witness :
  2%Z <> 0%Z
  /\ [/\ (run (trace example_ext 0 None 2 5 (-10) None)
              [:: Matrix 2 rows6]).2 = Ok tt,
         [seq plotted c
         | c <- fig (run (trace example_ext 0 None 2 5 (-10) None)
                         [:: Matrix 2 rows6]).1
         & is_plot c] = [:: [:: 1; 5; 9]; [:: 2; 6; 10]]%Q
       & [seq c <- fig (run (trace example_ext 0 None 2 5 (-10) None)
                            [:: Matrix 2 rows6]).1
         | is_vlines c] = [::]].
Proof.
split; first by lia.
apply: (@trace_without_chains example_ext 2 rows6 2 5 (-10) None); lia.
Defined.


(** X8 on a call without chain indices. *)
Lemma trace_raises_before_drawing_witness :
  0%Z = 0%Z
  /\ (run (trace example_ext 0 None 0 0 (-10) None) [:: Matrix 2 rows6]).2
     = Raise ValueError
  /\ fig (run (trace example_ext 0 None 0 0 (-10) None) [:: Matrix 2 rows6]).1
     = [::].
Proof.
split; first by reflexivity.
apply: (@trace_raises_before_drawing example_ext 2 rows6 None 0 0 (-10) None).
reflexivity.
Defined.


(** X10 on three parameters and a zero [thinning]. *)
Lemma pairwise_raises_before_drawing_witness :
  (1 < 3 /\ (0%Z = 0%Z \/ (2 <= 0)%Z))
  /\ (run (pairwise 0 0 7 None 2 3 false) [:: Matrix 3 rows4]).2
     = Raise ValueError
  /\ fig (run (pairwise 0 0 7 None 2 3 false) [:: Matrix 3 rows4]).1 = [::].
Proof.
split; first by split; [reflexivity | left; reflexivity].
apply: (@pairwise_raises_before_drawing 3 rows4 0 7 None 2 3 false);
  [reflexivity | left; reflexivity].
Defined.



(** X13 on the same sampling. *)
Lemma histogram_zero_thinning_witness :
  [/\ as_matrix (Floats sample6) = Some (1, [seq [:: x] | x <- sample6]),
      0 < 1 & pdf_ok 1 false None None]
  /\ (run (histogram example_ext 0 0 (-35) None None None None)
          [:: Floats sample6]).2 = Raise ValueError
  /\ fig (run (histogram example_ext 0 0 (-35) None None None None)
              [:: Floats sample6]).1
     = [:: figure (-35) 8 4; clf; subplot 1 1 1].
Proof.
split; first by split; reflexivity.
apply: (@histogram_zero_thinning example_ext (Floats sample6) None None 1
          [seq [:: x] | x <- sample6] None (-35) None); reflexivity.
Defined.

(** X14 on two RMS values: the range runs from 1 to 5. *)
Lemma RMS_absolute_yran_witness :
  [/\ rms_ok binsz2 rms2 stderr2 rmserr2 rmserr2, 1%Z <> 0%Z & range_ok None]
  /\ exists lo hi e,
       [/\ amin (elementwise Qminus rms2 rmserr2) = Ok lo,
           amax (elementwise Qplus rms2 rmserr2) = Ok hi,
           last_item stderr2 = Ok e,
           (run (RMS 0 1 2 3 4 None 1 None false (-20) None None None)
                (rms_args binsz2 rms2 stderr2 rmserr2 rmserr2)).2 = Ok tt
         & [seq c <- fig (run (RMS 0 1 2 3 4 None 1 None false (-20) None None
                                   None)
                              (rms_args binsz2 rms2 stderr2 rmserr2 rmserr2)).1
           | is_ylim c] = [:: ylim (Qmin lo e) hi]].
Proof.
split; first by split; [reflexivity | lia | reflexivity].
apply: (@RMS_absolute_yran binsz2 rms2 stderr2 rmserr2 rmserr2 None None None
          1 (-20) None); [reflexivity | lia | reflexivity].
Defined.

(** X15 on the ranges [[0, 9]] and [[1, 100]], in ratio mode. *)
Lemma RMS_given_ranges_witness :
  (rms_ok binsz2 rms2 stderr2 rmserr2 rmserr2 /\ 1%Z <> 0%Z)
  /\ [/\ (run (RMS 0 1 2 3 4 (Some 10%Q) 1 None true (-20) (Some 5) (Some 6)
                   None)
              (rms_args binsz2 rms2 stderr2 rmserr2 rmserr2
               ++ [:: Floats [:: 0; 9]%Q; Floats [:: 1; 100]%Q])).2 = Ok tt,
         [seq c <- fig (run (RMS 0 1 2 3 4 (Some 10%Q) 1 None true (-20)
                                 (Some 5) (Some 6) None)
                            (rms_args binsz2 rms2 stderr2 rmserr2 rmserr2
                             ++ [:: Floats [:: 0; 9]%Q;
                                    Floats [:: 1; 100]%Q])).1
         | is_ylim c] = [:: ylim 0 9]
       & [seq c <- fig (run (RMS 0 1 2 3 4 (Some 10%Q) 1 None true (-20)
                                 (Some 5) (Some 6) None)
                            (rms_args binsz2 rms2 stderr2 rmserr2 rmserr2
                             ++ [:: Floats [:: 0; 9]%Q;
                                    Floats [:: 1; 100]%Q])).1
         | is_xlim c] = [:: xlim 1 100]].
Proof.
split; first by split; [reflexivity | lia].
apply: (@RMS_given_ranges binsz2 rms2 stderr2 rmserr2 rmserr2 None 0%Q 9%Q 1%Q
          100%Q (Some 10%Q) 1 true (-20) None); [reflexivity | lia].
Defined.




(** X19 on the same arrays. *)
Lemma RMS_zero_binstep_witness :
  [/\ rms_ok binsz2 rms2 stderr2 rmserr2 rmserr2, range_ok None
    & range_ok None]
  /\ (run (RMS 0 1 2 3 4 None 0 None false (-20) None None None)
          (rms_args binsz2 rms2 stderr2 rmserr2 rmserr2)).2
     = Raise ValueError
  /\ fig (run (RMS 0 1 2 3 4 None 0 None false (-20) None None None)
              (rms_args binsz2 rms2 stderr2 rmserr2 rmserr2)).1
     = [:: figure (-20) 8 6; clf; subplot 1 1 1].
Proof.
split; first by split; reflexivity.
apply: (@RMS_zero_binstep binsz2 rms2 stderr2 rmserr2 rmserr2 None None None
          None false (-20) None); reflexivity.
Defined.


(** X22 on six points and four bins: bins of two points. *)
Lemma modelfit_bins_cover_witness :
  ((1 <= 6)%Z /\ (1 <= 4)%Z)
  /\ exists binsize,
       [/\ binsize_of 6 4 = Ok binsize,
           (1 <= binsize <= 6)%Z,
           (6 <= 4 * binsize)%Z,
           (4 * (binsize - 1) < 6)%Z
         & (6 <= 4)%Z -> binsize = 1%Z].
Proof.
split; first by split; lia.
apply: (@modelfit_bins_cover 6 4); lia.
Defined.

(** X23 on six samples drawn by two chains in turn. *)
Lemma trace_separators_span_witness :
  [/\ 0 < size chains6, size column6 = size chains6 & 1%Z <> 0%Z]
  /\ [/\ (run (trace example_ext 0 (Some 1) 1 1 (-10) None)
              [:: Matrix 1 column6; Ints chains6]).2 = Ok tt,
         [seq y_span c
         | c <- fig (run (trace example_ext 0 (Some 1) 1 1 (-10) None)
                         [:: Matrix 1 column6; Ints chains6]).1
         & is_vlines c]
         = [seq y_span c
           | c <- fig (run (trace example_ext 0 (Some 1) 1 1 (-10) None)
                           [:: Matrix 1 column6; Ints chains6]).1
           & is_ylim c]
       & size [seq c <- fig (run (trace example_ext 0 (Some 1) 1 1 (-10) None)
                                 [:: Matrix 1 column6; Ints chains6]).1
              | is_ylim c] = 1].
Proof.
split; first by split; [reflexivity | reflexivity | lia].
apply: (@trace_separators_span example_ext 1 column6 chains6 1 1 (-10) None);
  [reflexivity | reflexivity | lia].
Defined.
